(** * geneticAlgo: crossover, mutation, fitness scheduling and the
      generational loop of [geneticAlgo.py], as a shallow embedding.

    Conventions of the embedding.
    - Python [int]s that count rows, columns and generations are [nat];
      where the source subtracts, the cases in which Python would go
      negative are written out.
    - [float64] cells are idealised as rationals [Q] (no rounding, no NaN);
      an [int64] array holds [Z].  Storing a float in an [int64] array
      keeps its integer part, i.e. truncates toward zero; a float whose
      integer part is not an [int64] cannot be stored (numpy raises
      [OverflowError]), and that case is left out: the statements about
      what an [int64] vector stores assume the values fit ([fits_int64],
      [storable]).
    - A 2-D array is a list of rows; a raised exception is [Raise e].
    - The ambient random source [np.random] is an explicit state threaded
      through the calls that draw from it, behind the interface
      [Np.RandomSource].
    - [ndarray.argsort()] is taken behind the interface [Np.Argsort], which
      holds what numpy documents for the default [kind]: the indices
      returned are a permutation and sort the array.
    - The workbook is observed through the sequence of xlwings calls that
      change it ([wbop]).  What the [try] block reads from an existing
      workbook, and how xlwings turns ranges into tables, is an input of
      the model ([checkpoint]).
    - The pool is observed through the batches of row indices handed to
      [mpPool.map]; [map] returns its results in the order of its
      arguments, so a batch is evaluated as a [map] over its rows.  *)

From Stdlib Require Import String Bool.
From Stdlib Require Import List Arith PeanoNat ZArith QArith Lia Lqa.
From Stdlib Require Import Permutation Sorted.
From Equations Require Import Equations.
Import ListNotations.

Local Open Scope nat_scope.

(* ===================================================================== *)
(** ** Python results *)
(* ===================================================================== *)

Inductive exn : Set :=
| ValueError
| IndexError
| ZeroDivisionError
| TypeError
| KeyError
| FileNotFoundError.

Inductive result (A : Type) : Type :=
| Ok (a : A)
| Raise (e : exn).

Arguments Ok {A} a.
Arguments Raise {A} e.

Definition bind {A B : Type} (c : result A) (k : A -> result B) : result B :=
  match c with
  | Ok a => k a
  | Raise e => Raise e
  end.

Notation "x <- c ;; k" := (bind c (fun x => k))
  (at level 61, c at next level, right associativity).
Notation "' p <- c ;; k" := (bind c (fun x => let 'p := x in k))
  (at level 61, p pattern, c at next level, right associativity).

(** [for k in range(n): s = body(k, s)] *)
Fixpoint for_range_from {St : Type} (start n : nat)
         (body : nat -> St -> result St) (s : St) : result St :=
  match n with
  | 0 => Ok s
  | S n' => s' <- body start s ;; for_range_from (S start) n' body s'
  end.

Definition for_range {St : Type} (n : nat) (body : nat -> St -> result St)
           (s : St) : result St :=
  for_range_from 0 n body s.

(** [k % n] on non-negative ints *)
Definition pymod (k n : nat) : result nat :=
  match n with
  | 0 => Raise ZeroDivisionError
  | _ => Ok (k mod n)
  end.

(** [l[i]] and [l[i] = v] for [0 <= i] *)
Definition getitem {A : Type} (l : list A) (i : nat) : result A :=
  match nth_error l i with
  | Some a => Ok a
  | None => Raise IndexError
  end.

Fixpoint setitem {A : Type} (l : list A) (i : nat) (v : A) : result (list A) :=
  match l, i with
  | [], _ => Raise IndexError
  | _ :: t, 0 => Ok (v :: t)
  | h :: t, S i' => t' <- setitem t i' v ;; Ok (h :: t')
  end.

(* ===================================================================== *)
(** ** The numpy fragment the program uses *)
(* ===================================================================== *)

Definition row := list Q.
Definition matrix := list row.

Module Np.

(** [np.uint8(x)] of a non-negative float: the integer part, kept to its
    low eight bits. *)
Definition uint8 (floor_x : nat) : nat := floor_x mod 256.

(** [np.empty((n, m))]: cells hold whatever was in memory, [uninit]. *)
Definition empty (uninit : Q) (n m : nat) : matrix :=
  repeat (repeat uninit m) n.

Definition empty1 (uninit : Q) (n : nat) : row := repeat uninit n.

(** Number of cells selected by [a[i1:i2]] in an array of [len] cells. *)
Definition slice_len (len i1 i2 : nat) : nat :=
  Nat.min i2 len - Nat.min i1 len.

(** [a[i1:i2]] *)
Definition getslice {A : Type} (l : list A) (i1 i2 : nat) : list A :=
  firstn (i2 - i1) (skipn i1 l).

(** Broadcasting of a 1-D value to [n] cells: equal length, or a single
    cell repeated; anything else is a shape mismatch. *)
Definition broadcast {A : Type} (n : nat) (vals : list A) : result (list A) :=
  if length vals =? n then Ok vals
  else match vals with
       | [v] => Ok (repeat v n)
       | _ => Raise ValueError
       end.

(** [a[i1:i2] = vals] *)
Definition setslice {A : Type} (l : list A) (i1 i2 : nat) (vals : list A)
  : result (list A) :=
  let lo := Nat.min i1 (length l) in
  let n := slice_len (length l) i1 i2 in
  vs <- broadcast n vals ;;
  Ok (firstn lo l ++ vs ++ skipn (lo + n) l).

(** [a[idx]] for an index array: row [idx[k]] of [a] becomes row [k]. *)
Definition take {A : Type} (d : A) (l : list A) (idx : list nat) : list A :=
  map (fun i => nth i l d) idx.

(** [a[i1:, :] = vals] on a 2-D array: [vals] is broadcast along the
    rows, and each of its rows along the columns. *)
Fixpoint setrows_zip (rows vals : matrix) : result matrix :=
  match rows, vals with
  | r :: rows', v :: vals' =>
      r' <- setslice r 0 (length r) v ;;
      t <- setrows_zip rows' vals' ;;
      Ok (r' :: t)
  | _, _ => Ok []
  end.

Definition setrows (m : matrix) (i1 : nat) (vals : matrix) : result matrix :=
  let lo := Nat.min i1 (length m) in
  vs <- broadcast (length m - lo) vals ;;
  t <- setrows_zip (skipn lo m) vs ;;
  Ok (firstn lo m ++ t).

(** [a[:, col] = vals] *)
Fixpoint setcol_zip (rows : matrix) (col : nat) (vals : list Q)
  : result matrix :=
  match rows, vals with
  | r :: rows', v :: vals' =>
      r' <- setitem r col v ;;
      t <- setcol_zip rows' col vals' ;;
      Ok (r' :: t)
  | _, _ => Ok []
  end.

Definition setcol (m : matrix) (col : nat) (vals : list Q) : result matrix :=
  vs <- broadcast (length m) vals ;;
  setcol_zip m col vs.

(** [np.vstack((a, r))] for a table [a] and one more row [r]: the rows
    must agree on their number of columns. *)
Definition vstack (a : matrix) (r : row) : result matrix :=
  if forallb (fun x => length x =? length r) a then Ok (a ++ [r])
  else Raise ValueError.

(** A 1-D array with its dtype: [int64] or [float64].  As [float64] is
    read as the rationals, [int64] is read as the integers: a store of a
    value beyond the [int64] range, which numpy refuses with
    [OverflowError], is outside the model, and the statements about what
    an [int64] vector stores assume the values fit. *)
Inductive ndarray : Type :=
| IntArr (l : list Z)
| FloatArr (l : list Q).

(** The C cast of a double to an integer: truncation toward zero. *)
Definition Qtrunc (x : Q) : Z := Z.quot (Qnum x) (Zpos (Qden x)).

Definition values (a : ndarray) : list Q :=
  match a with
  | IntArr l => map inject_Z l
  | FloatArr l => l
  end.

Definition size (a : ndarray) : nat := length (values a).

(** [a[i1:i2] = vals] where [vals] are floats: they are cast to the
    dtype of [a]. *)
Definition asetslice (a : ndarray) (i1 i2 : nat) (vals : list Q)
  : result ndarray :=
  match a with
  | IntArr l => l' <- setslice l i1 i2 (map Qtrunc vals) ;; Ok (IntArr l')
  | FloatArr l => l' <- setslice l i1 i2 vals ;; Ok (FloatArr l')
  end.

(** [a[idx]] keeps the dtype. *)
Definition atake (a : ndarray) (idx : list nat) : ndarray :=
  match a with
  | IntArr l => IntArr (take 0%Z l idx)
  | FloatArr l => FloatArr (take 0%Q l idx)
  end.

(** [a.argsort()] with the default [kind]: indices that sort [a]
    ascending.  numpy's default is not a stable sort and which indices
    come first among equal keys is left to the implementation; the
    interface fixes only what numpy documents. *)
Class Argsort : Type := {
  argsort : list Q -> list nat;
  argsort_perm : forall keys,
      Permutation (argsort keys) (seq 0 (length keys));
  argsort_sorted : forall keys,
      StronglySorted Qle (take 0%Q keys (argsort keys))
}.

(** [np.random]: [randint n] is [np.random.randint(0, n)] for [0 < n],
    [uniform lo hi] is one draw of [np.random.uniform(lo, hi)]. *)
Class RandomSource : Type := {
  rng : Type;
  randint : nat -> rng -> nat * rng;
  uniform : Q -> Q -> rng -> Q * rng;
  randint_range : forall n g, 0 < n -> fst (randint n g) < n;
  uniform_range : forall lo hi g,
      (lo <= hi)%Q -> (lo <= fst (uniform lo hi g) <= hi)%Q
}.

(** [np.random.uniform(lo, hi, size=n)] *)
Fixpoint uniform_n `{RandomSource} (lo hi : Q) (n : nat) (g : rng)
  : list Q * rng :=
  match n with
  | 0 => ([], g)
  | S n' => let (x, g1) := uniform lo hi g in
            let (xs, g2) := uniform_n lo hi n' g1 in
            (x :: xs, g2)
  end.

End Np.

(* ===================================================================== *)
(** ** crossover *)
(* ===================================================================== *)

Section Crossover.

(** Contents of freshly allocated, not yet written cells. *)
Variable uninit : Q.

(** One pass of the loop body: fills row [k] of [offspring]. *)
Definition crossover_row (parents : matrix) (num_parents num_params : nat)
           (crossover_point : nat) (k : nat) (offspring : matrix)
  : result matrix :=
  parent1_ind <- pymod k num_parents ;;
  parent2_ind <- pymod (k + 1) num_parents ;;
  r <- getitem offspring k ;;
  p1 <- getitem parents parent1_ind ;;
  r1 <- Np.setslice r 0 crossover_point (Np.getslice p1 0 crossover_point) ;;
  p2 <- getitem parents parent2_ind ;;
  r2 <- Np.setslice r1 crossover_point (length r1)
                    (Np.getslice p2 crossover_point (length p2)) ;;
  setitem offspring k r2.

Definition crossover (parents : matrix)
           (num_solutions num_parents num_params : nat) : result matrix :=
  if num_solutions <? num_parents then Raise ValueError
  else
    let num_offspring := num_solutions - num_parents in
    let offspring := Np.empty uninit num_offspring num_params in
    let crossover_point := Np.uint8 (num_params / 2) in
    for_range num_offspring
              (crossover_row parents num_parents num_params crossover_point)
              offspring.

End Crossover.

(* ===================================================================== *)
(** ** mutation *)
(* ===================================================================== *)

Section Mutation.

Context `{RS : Np.RandomSource}.

(** One pass of the loop body: redraws one cell of row [row]. *)
Definition mutation_row (num_params : nat) (param_ranges : list (Q * Q))
           (row : nat) (st : matrix * Np.rng) : result (matrix * Np.rng) :=
  let (offspring_crossover, g) := st in
  if num_params =? 0 then Raise ValueError
  else
    let (col, g1) := Np.randint num_params g in
    range <- getitem param_ranges col ;;
    let low_bound := fst range in
    let high_bound := snd range in
    let (new_gene, g2) := Np.uniform low_bound high_bound g1 in
    r <- getitem offspring_crossover row ;;
    r' <- setitem r col new_gene ;;
    m' <- setitem offspring_crossover row r' ;;
    Ok (m', g2).

Definition mutation (offspring_crossover : matrix) (num_params : nat)
           (param_ranges : list (Q * Q)) (g : Np.rng)
  : result (matrix * Np.rng) :=
  for_range (length offspring_crossover)
            (mutation_row num_params param_ranges)
            (offspring_crossover, g).

End Mutation.

(* ===================================================================== *)
(** ** solver: the fitness scheduler *)
(* ===================================================================== *)

Section Solver.

Variable fitnessFun : row -> Q.

(** The [while] loop.  [batches] logs, oldest first, the row indices
    handed to [mpPool.map] by each pass.  [mp.Pool(0)] raises. *)
Equations? solver_loop (population : matrix)
           (num_solutions num_cpu req_solutions comp_solutions : nat)
           (fitness : Np.ndarray) (batches : list (list nat))
  : result (Np.ndarray * list (list nat))
  by wf (req_solutions - comp_solutions) lt :=
  solver_loop population num_solutions num_cpu req_solutions comp_solutions
              fitness batches
    with le_lt_dec req_solutions comp_solutions := {
    | left _ => Ok (fitness, batches)
    | right _
        with Nat.eq_dec (Nat.min (req_solutions - comp_solutions) num_cpu) 0 := {
      | left _ => Raise ValueError
      | right _ =>
          let num_processes :=
            Nat.min (req_solutions - comp_solutions) num_cpu in
          let i1 := num_solutions - comp_solutions - num_processes in
          let i2 := i1 + num_processes in
          let rows := Np.getslice population i1 i2 in
          match Np.asetslice fitness i1 i2 (map fitnessFun rows) with
          | Raise e => Raise e
          | Ok fitness' =>
              solver_loop population num_solutions num_cpu req_solutions
                          (comp_solutions + num_processes) fitness'
                          (batches ++ [seq i1 (length rows)])
          end } }.
Proof. lia. Qed.

Definition solver (fitness : Np.ndarray) (population : matrix)
           (no_data : bool) (num_solutions num_parents num_cpu : nat)
  : result (Np.ndarray * list (list nat)) :=
  let req_solutions :=
    if no_data then num_solutions else num_solutions - num_parents in
  solver_loop population num_solutions num_cpu req_solutions 0 fitness [].

End Solver.

(* ===================================================================== *)
(** ** geneticAlgoSolve: start-up and the generational loop *)
(* ===================================================================== *)

(** What is written into a worksheet range. *)
Inductive cell : Type :=
| CStr (s : string)
| CNum (q : Q)
| CTable (m : matrix)
| CArray (a : Np.ndarray).

(** The xlwings calls that change a workbook or the file behind it. *)
Inductive wbop : Type :=
| BookNew
| SheetAdd (name : string)
| RangeWrite (sheet : string) (r c : nat) (v : cell)
| Save (path : option string).

(** What the [try] block reads from an existing workbook. *)
Record checkpoint : Type := {
  ck_population : matrix;
  ck_fitness : list Q;
  ck_recorded_generations : nat;
  ck_record : matrix
}.

Section Engine.

Context `{RS : Np.RandomSource} `{AS : Np.Argsort}.

Variable fitnessFun : row -> Q.
Variable output_file : string.
Variables num_generations num_params num_solutions num_parents : nat.
Variable param_ranges : list (Q * Q).
(** [mp.cpu_count()] *)
Variable num_cpu : nat.
Variable uninit : Q.

Record RunState : Type := {
  population : matrix;
  fitness : Np.ndarray;
  record : matrix;
  recorded_generations : nat;
  no_data : bool;
  gen : Np.rng;
  (** xlwings calls issued so far, oldest first *)
  wb : list wbop;
  (** batches of row indices sent to the pool so far, oldest first *)
  evals : list (list nat)
}.

(** How the call ends when nothing is raised: it runs off its end, or
    leaves through the [return] of the [except] branch. *)
Inductive outcome : Type :=
| Finished (s : RunState)
| Returned (w : list wbop).

Definition format_workbook : list wbop :=
  [ BookNew;
    SheetAdd "Population"; SheetAdd "Record"; SheetAdd "Fitness";
    RangeWrite "Record" 1 2 (CStr "Genetic Algorithm Record");
    RangeWrite "Record" 3 2 (CStr "Number of Generations");
    RangeWrite "Record" 5 2 (CStr "Generation");
    RangeWrite "Record" 5 3 (CStr "Parameters");
    RangeWrite "Record" 5 (3 + num_params) (CStr "Fitness");
    RangeWrite "Record" 3 5 (CNum 0) ].

(** The randomised initial population, one column per pass. *)
Definition random_column (col : nat) (st : matrix * Np.rng)
  : result (matrix * Np.rng) :=
  let (population, g) := st in
  range <- getitem param_ranges col ;;
  let low_bound := fst range in
  let high_bound := snd range in
  let (rand_params, g') := Np.uniform_n low_bound high_bound num_solutions g in
  population' <- Np.setcol population col rand_params ;;
  Ok (population', g').

Definition random_population (g : Np.rng) : result (matrix * Np.rng) :=
  for_range num_params random_column
            (Np.empty uninit num_solutions num_params, g).

(** The [try]/[except] at the top.  [load] is what the [try] block
    yields: the tables read, or the exception some step of it raised.
    The handler is a bare [except:], so it does not look at [e].
    [recorded_generations] is not bound on this path until the first
    generation assigns it; [0] stands for that. *)
Definition startup (load : result checkpoint) (g : Np.rng)
  : result outcome :=
  match load with
  | Ok ck =>
      Ok (Finished {| population := ck_population ck;
                      fitness := Np.FloatArr (ck_fitness ck);
                      record := ck_record ck;
                      recorded_generations := ck_recorded_generations ck;
                      no_data := false;
                      gen := g;
                      wb := [];
                      evals := [] |})
  | Raise _ =>
      if negb (length param_ranges =? num_params) then
        Ok (Returned format_workbook)
      else
        pg <- random_population g ;;
        Ok (Finished {| population := fst pg;
                        fitness := Np.IntArr (repeat 0%Z num_solutions);
                        record := Np.empty uninit 1 (num_params + 2);
                        recorded_generations := 0;
                        no_data := true;
                        gen := snd pg;
                        wb := format_workbook;
                        evals := [] |})
  end.

(** The row appended to the record. *)
Definition make_record (recorded : nat) (population : matrix)
           (fitness : Np.ndarray) : result row :=
  let new_record := Np.empty1 uninit (2 + num_params) in
  r0 <- setitem new_record 0 (inject_Z (Z.of_nat recorded)) ;;
  best <- getitem population 0 ;;
  r1 <- Np.setslice r0 1 (num_params + 1) best ;;
  f0 <- getitem (Np.values fitness) 0 ;;
  setitem r1 (num_params + 1) f0.

(** First half of a pass of the loop over generations: parents are
    selected, offspring bred and spliced in, and fitness computed.  Yields
    the population and fitness as they stand before the sort, the random
    state, and the batches sent to the pool. *)
Definition breed_and_evaluate (s : RunState)
  : result (matrix * Np.ndarray * Np.rng * list (list nat)) :=
  let parents := Np.getslice (population s) 0 num_parents in
  offspring_crossover <-
    crossover uninit parents num_solutions num_parents num_params ;;
  om <- mutation offspring_crossover num_params param_ranges (gen s) ;;
  let offspring_mutation := fst om in
  population1 <- Np.setrows (population s) num_parents offspring_mutation ;;
  fb <- solver fitnessFun (fitness s) population1 (no_data s)
               num_solutions num_parents num_cpu ;;
  Ok (population1, fst fb, snd om, snd fb).

(** Second half: the sort by fitness, the dump to the workbook and the
    record. *)
Definition rank_and_record (s : RunState) (population1 : matrix)
           (fitness1 : Np.ndarray) (g : Np.rng) (batches : list (list nat))
  : result RunState :=
  let sinds := Np.argsort (Np.values fitness1) in
  let population2 := Np.take [] population1 sinds in
  let fitness2 := Np.atake fitness1 sinds in
  let wb1 := wb s ++ [ RangeWrite "Population" 1 1 (CTable population2);
                       RangeWrite "Fitness" 1 1 (CArray fitness2) ] in
  if no_data s then
    let recorded := 1 in
    new_record <- make_record recorded population2 fitness2 ;;
    let record' := [new_record] in
    Ok {| population := population2;
          fitness := fitness2;
          record := record';
          recorded_generations := recorded;
          no_data := false;
          gen := g;
          wb := wb1 ++ [ Save (Some output_file);
                         RangeWrite "Record" 3 5
                                    (CNum (inject_Z (Z.of_nat recorded)));
                         RangeWrite "Record" 6 2 (CTable record');
                         Save None ];
          evals := evals s ++ batches |}
  else
    let recorded := recorded_generations s + 1 in
    new_record <- make_record recorded population2 fitness2 ;;
    record' <- Np.vstack (record s) new_record ;;
    Ok {| population := population2;
          fitness := fitness2;
          record := record';
          recorded_generations := recorded;
          no_data := false;
          gen := g;
          wb := wb1 ++ [ RangeWrite "Record" 3 5
                                    (CNum (inject_Z (Z.of_nat recorded)));
                         RangeWrite "Record" 6 2 (CTable record');
                         Save None ];
          evals := evals s ++ batches |}.

(** One pass of the loop over generations. *)
Definition generation (s : RunState) : result RunState :=
  e <- breed_and_evaluate s ;;
  match e with
  | (population1, fitness1, g, batches) =>
      rank_and_record s population1 fitness1 g batches
  end.

(** [n] passes of the loop. *)
Fixpoint generations (n : nat) (s : RunState) : result RunState :=
  match n with
  | 0 => Ok s
  | S n' => s' <- generation s ;; generations n' s'
  end.

Definition geneticAlgoSolve (load : result checkpoint) (g : Np.rng)
  : result outcome :=
  o <- startup load g ;;
  match o with
  | Returned w => Ok (Returned w)
  | Finished s => s' <- generations num_generations s ;; Ok (Finished s')
  end.

End Engine.

(* ===================================================================== *)
(** ** Two index sorts and a random source *)
(* ===================================================================== *)

(** Insertion of index [i] into an index list ordered by key: [i] goes in
    front of the first [j] for which [before keys[i] keys[j]] holds. *)
Fixpoint insert_index (before : Q -> Q -> bool) (keys : list Q) (i : nat)
         (l : list nat) : list nat :=
  match l with
  | [] => [i]
  | j :: l' =>
      if before (nth i keys 0%Q) (nth j keys 0%Q) then i :: j :: l'
      else j :: insert_index before keys i l'
  end.

Definition argsort_by (before : Q -> Q -> bool) (keys : list Q) : list nat :=
  fold_left (fun acc i => insert_index before keys i acc)
            (seq 0 (length keys)) [].

Definition Qlt_bool (x y : Q) : bool := negb (Qle_bool y x).

(** Indices enter in increasing order.  With the strict test a later index
    stays behind earlier ones of the same key (a stable sort); with the
    non-strict test it overtakes them. *)
Definition argsort_stable : list Q -> list nat := argsort_by Qlt_bool.
Definition argsort_ties_reversed : list Q -> list nat := argsort_by Qle_bool.

(** A counter as random state: [randint] walks through the residues and
    [uniform] through a few points of the interval. *)
Definition counter_fraction (g : nat) : Q :=
  match g mod 4 with
  | 0 => 0
  | 1 => 1 # 4
  | 2 => 1 # 2
  | _ => 3 # 4
  end.

Definition counter_randint (n : nat) (g : nat) : nat * nat :=
  (g mod n, S g).

Definition counter_uniform (lo hi : Q) (g : nat) : Q * nat :=
  ((lo + (hi - lo) * counter_fraction g)%Q, S g).

(* ===================================================================== *)
(** ** Predicates used by the statements *)
(* ===================================================================== *)

(** [m] has [rows] rows of [cols] cells. *)
Definition shape (rows cols : nat) (m : matrix) : Prop :=
  length m = rows /\ Forall (fun r => length r = cols) m.

(** Position of index [i] in an index array. *)
Fixpoint position (i : nat) (idx : list nat) : option nat :=
  match idx with
  | [] => None
  | j :: idx' => if i =? j then Some 0
                 else option_map S (position i idx')
  end.

(** What a store into an array of the dtype of [a] keeps of a float. *)
Definition stored_as (a : Np.ndarray) (x : Q) : Q :=
  match a with
  | Np.IntArr _ => inject_Z (Np.Qtrunc x)
  | Np.FloatArr _ => x
  end.

(** The range of [int64]. *)
Definition int64_min : Z := (- 2 ^ 63)%Z.
Definition int64_max : Z := (2 ^ 63 - 1)%Z.

(** The integer part of [x] is an [int64]. *)
Definition fits_int64 (x : Q) : Prop :=
  (int64_min <= Np.Qtrunc x <= int64_max)%Z.

(** [x] can be stored into an array of the dtype of [a]: any float into a
    [float64] array, a float whose integer part is an [int64] into an
    [int64] array. *)
Definition storable (a : Np.ndarray) (x : Q) : Prop :=
  match a with
  | Np.IntArr _ => fits_int64 x
  | Np.FloatArr _ => True
  end.

(** The state has the shapes the configuration announces; the record
    counts once it holds recorded rows. *)
Definition well_shaped `{RS : Np.RandomSource} (num_params num_solutions : nat)
           (s : RunState) : Prop :=
  shape num_solutions num_params (population s) /\
  Np.size (fitness s) = num_solutions /\
  (no_data s = false ->
   Forall (fun r => length r = num_params + 2) (record s)).

(** The generation record a state stands for: before the first generation
    of a fresh run the variable [record] only holds a placeholder. *)
Definition recorded_entries `{RS : Np.RandomSource} (s : RunState) : matrix :=
  if no_data s then [] else record s.

Definition recorded_count `{RS : Np.RandomSource} (s : RunState) : nat :=
  if no_data s then 0 else recorded_generations s.

(** A row of the record: generation count, best genome, best fitness. *)
Definition record_entry (count : nat) (best : row) (best_fitness : Q) : row :=
  inject_Z (Z.of_nat count) :: best ++ [best_fitness].

(** The rows [solver] has to evaluate. *)
Definition required_rows (no_data : bool) (num_solutions num_parents : nat)
  : list nat :=
  if no_data then seq 0 num_solutions
  else seq num_parents (num_solutions - num_parents).

(** Row [k] of the offspring as the specification words it, for a
    crossover point [cp]. *)
Definition offspring_genes (parents : matrix) (num_parents cp k : nat) : row :=
  firstn cp (nth (k mod num_parents) parents [])
  ++ skipn cp (nth ((k + 1) mod num_parents) parents []).

(** [r'] is [r] with the cell at one column replaced by a value inside
    that column's range. *)
Definition one_gene_redrawn (num_params : nat) (param_ranges : list (Q * Q))
           (r r' : row) : Prop :=
  exists col lo hi v,
    col < num_params /\
    nth_error param_ranges col = Some (lo, hi) /\
    (lo <= v <= hi)%Q /\
    length r' = length r /\
    nth_error r' col = Some v /\
    forall c, c <> col -> nth_error r' c = nth_error r c.

(** Mutation of one row, with the draws it makes: the column is the
    [randint] draw from [g], the new gene the [uniform] draw that follows
    it, inside that column's range; [r'] is [r] with that gene at that
    column, and [g'] is the random state after the two draws. *)
Definition gene_redrawn `{RS : Np.RandomSource} (num_params : nat)
           (param_ranges : list (Q * Q))
           (r : row) (g : Np.rng) (r' : row) (g' : Np.rng) : Prop :=
  exists col g1 lo hi v,
    Np.randint num_params g = (col, g1) /\
    col < num_params /\
    nth_error param_ranges col = Some (lo, hi) /\
    Np.uniform lo hi g1 = (v, g') /\
    (lo <= v <= hi)%Q /\
    r' = firstn col r ++ v :: skipn (S col) r.

(** Mutation of a table: row after row, each from the random state the
    row before it left. *)
Inductive rows_redrawn `{RS : Np.RandomSource} (num_params : nat)
          (param_ranges : list (Q * Q))
  : matrix -> Np.rng -> matrix -> Np.rng -> Prop :=
| redrawn_nil (g : Np.rng) :
    rows_redrawn num_params param_ranges [] g [] g
| redrawn_cons (r r' : row) (rest rest' : matrix) (g g1 g2 : Np.rng) :
    gene_redrawn num_params param_ranges r g r' g1 ->
    rows_redrawn num_params param_ranges rest g1 rest' g2 ->
    rows_redrawn num_params param_ranges (r :: rest) g (r' :: rest') g2.

(** The order of rows of equal fitness is kept by a re-ranking: if row
    [i] stood before row [j] in [before] and both have the same key, row
    [i] still stands before row [j] in [after]. *)
Definition keeps_ties_in_order (keys : list Q) (before after : matrix)
  : Prop :=
  forall i j, i < j < length keys ->
    (nth i keys 0 == nth j keys 0)%Q ->
    exists pi pj,
      pi < pj /\
      nth_error after pi = nth_error before i /\
      nth_error after pj = nth_error before j.

(** The scenario of the specification: two parameters in [[0, 10]], four
    solutions, two parents, fitness the squared distance to (5, 5), and a
    hand-fixed initial population of a fresh run. *)
Definition scenario_fitness (r : row) : Q :=
  fold_right Qplus 0%Q (map (fun x => (x - 5) * (x - 5))%Q r).

Definition scenario_ranges : list (Q * Q) := [(0, 10); (0, 10)]%Q.

(* ===================================================================== *)
(** ** Lists, slices and the loop combinator *)
(* ===================================================================== *)

Lemma getitem_nth_error {A : Type} (l : list A) (i : nat) (a : A) :
  nth_error l i = Some a -> getitem l i = Ok a.
Proof. unfold getitem. intros ->. reflexivity. Qed.

Lemma getitem_app_mid {A : Type} (l1 l2 : list A) (a : A) :
  getitem (l1 ++ a :: l2) (length l1) = Ok a.
Proof.
  apply getitem_nth_error. rewrite nth_error_app2 by lia.
  rewrite Nat.sub_diag. reflexivity.
Qed.

Lemma setitem_app_mid {A : Type} (l1 l2 : list A) (a v : A) :
  setitem (l1 ++ a :: l2) (length l1) v = Ok (l1 ++ v :: l2).
Proof.
  induction l1 as [|h t IH]; simpl.
  - reflexivity.
  - rewrite IH. reflexivity.
Qed.

Lemma split_at {A : Type} (l : list A) (i : nat) :
  i < length l ->
  exists l1 a l2, l = l1 ++ a :: l2 /\ length l1 = i.
Proof.
  intros Hi. destruct (nth_error l i) as [a|] eqn:E.
  - destruct (nth_error_split _ _ E) as (l1 & l2 & -> & <-). eauto.
  - apply nth_error_None in E. lia.
Qed.

Lemma pymod_pos (k n : nat) : 1 <= n -> pymod k n = Ok (k mod n).
Proof. destruct n; [lia | reflexivity]. Qed.

Lemma broadcast_same {A : Type} (n : nat) (vals : list A) :
  length vals = n -> Np.broadcast n vals = Ok vals.
Proof.
  intros <-. unfold Np.broadcast. rewrite Nat.eqb_refl. reflexivity.
Qed.

(** A slice store whose value has the length of the slice. *)
Lemma setslice_fits {A : Type} (l : list A) (i1 i2 : nat) (vals : list A) :
  i1 <= i2 <= length l -> length vals = i2 - i1 ->
  Np.setslice l i1 i2 vals = Ok (firstn i1 l ++ vals ++ skipn i2 l).
Proof.
  intros [H1 H2] Hv. unfold Np.setslice, Np.slice_len.
  rewrite !Nat.min_l by lia.
  rewrite broadcast_same by lia. simpl.
  replace (i1 + (i2 - i1)) with i2 by lia. reflexivity.
Qed.

Lemma getslice_prefix {A : Type} (l : list A) (n : nat) :
  Np.getslice l 0 n = firstn n l.
Proof. unfold Np.getslice. rewrite Nat.sub_0_r. reflexivity. Qed.

Lemma getslice_suffix {A : Type} (l : list A) (n : nat) :
  Np.getslice l n (length l) = skipn n l.
Proof.
  unfold Np.getslice. apply firstn_all2. rewrite length_skipn. lia.
Qed.

(* ===================================================================== *)
(** ** crossover: closed form *)
(* ===================================================================== *)

Lemma uint8_half_le (num_params : nat) : Np.uint8 (num_params / 2) <= num_params.
Proof.
  unfold Np.uint8.
  pose proof (Nat.Div0.mod_le (num_params / 2) 256).
  pose proof (Nat.Div0.div_le_upper_bound num_params 2 num_params ltac:(lia)).
  lia.
Qed.

Lemma uint8_half_small (num_params : nat) :
  num_params < 512 -> Np.uint8 (num_params / 2) = num_params / 2.
Proof.
  intros H. unfold Np.uint8. apply Nat.mod_small.
  apply Nat.Div0.div_lt_upper_bound. lia.
Qed.

Lemma shaped_row (rows cols : nat) (m : matrix) (i : nat) :
  shape rows cols m -> i < rows ->
  getitem m i = Ok (nth i m []) /\ length (nth i m []) = cols.
Proof.
  intros [Hl Hf] Hi. split.
  - apply getitem_nth_error. apply nth_error_nth'. lia.
  - rewrite Forall_forall in Hf. apply Hf. apply nth_In. lia.
Qed.

Section CrossoverFacts.

Variable uninit : Q.
Variable parents : matrix.
Variables num_parents num_params cp : nat.
Hypothesis parents_shape : shape num_parents num_params parents.
Hypothesis some_parent : 1 <= num_parents.
Hypothesis cp_le : cp <= num_params.

Lemma crossover_row_fills (k : nat) (done todo : matrix) (r : row) :
  length done = k -> length r = num_params ->
  crossover_row parents num_parents num_params cp k (done ++ r :: todo)
  = Ok (done ++ offspring_genes parents num_parents cp k :: todo).
Proof.
  intros Hk Hr. subst k. unfold crossover_row.
  rewrite !pymod_pos by exact some_parent. simpl bind.
  set (k := length done).
  assert (H1 : k mod num_parents < num_parents)
    by (apply Nat.mod_upper_bound; lia).
  assert (H2 : (k + 1) mod num_parents < num_parents)
    by (apply Nat.mod_upper_bound; lia).
  destruct (shaped_row _ _ _ _ parents_shape H1) as [E1 L1].
  destruct (shaped_row _ _ _ _ parents_shape H2) as [E2 L2].
  unfold k at 1. rewrite getitem_app_mid. simpl bind.
  rewrite E1. simpl bind.
  rewrite getslice_prefix.
  rewrite setslice_fits
    by (rewrite ?length_firstn; lia).
  simpl bind. simpl firstn. simpl app.
  rewrite E2. simpl bind.
  set (p1 := nth (k mod num_parents) parents []) in *.
  set (p2 := nth ((k + 1) mod num_parents) parents []) in *.
  assert (Lr1 : length (firstn cp p1 ++ skipn cp r) = num_params)
    by (rewrite length_app, length_firstn, length_skipn; lia).
  rewrite Lr1, getslice_suffix.
  rewrite setslice_fits
    by (rewrite ?length_skipn; lia).
  simpl bind.
  rewrite firstn_app, firstn_firstn, Nat.min_id, length_firstn.
  replace (cp - Nat.min cp (length p1)) with 0 by lia.
  simpl firstn. rewrite app_nil_r.
  rewrite (skipn_all2 (n := num_params)) by lia.
  rewrite app_nil_r.
  unfold k at 1. rewrite setitem_app_mid. reflexivity.
Qed.

Lemma crossover_loop (todo done : matrix) :
  Forall (fun r => length r = num_params) todo ->
  for_range_from (length done) (length todo)
                 (crossover_row parents num_parents num_params cp)
                 (done ++ todo)
  = Ok (done ++ map (offspring_genes parents num_parents cp)
                    (seq (length done) (length todo))).
Proof.
  revert done. induction todo as [|r todo IH]; intros done Hf.
  - reflexivity.
  - apply Forall_cons_iff in Hf as [Hr Hf']. simpl.
    rewrite (crossover_row_fills (length done)) by auto.
    simpl bind.
    replace (done ++ offspring_genes parents num_parents cp (length done)
                  :: todo)
      with ((done ++ [offspring_genes parents num_parents cp (length done)])
              ++ todo)
      by (rewrite <- app_assoc; reflexivity).
    replace (S (length done))
      with (length (done ++ [offspring_genes parents num_parents cp
                                             (length done)]))
      by (rewrite length_app; simpl; lia).
    rewrite IH by assumption.
    rewrite <- app_assoc. reflexivity.
Qed.

End CrossoverFacts.

(** crossover in closed form: [num_solutions - num_parents] rows, row [k]
    made of the head of parent [k mod num_parents] and the tail of parent
    [(k+1) mod num_parents], cut at [uint8(num_params/2)].  The contents
    of the freshly allocated array do not show. *)
Lemma crossover_closed_form (uninit : Q) (parents : matrix)
      (num_solutions num_parents num_params : nat) :
  shape num_parents num_params parents ->
  1 <= num_parents <= num_solutions ->
  crossover uninit parents num_solutions num_parents num_params
  = Ok (map (offspring_genes parents num_parents
                             (Np.uint8 (num_params / 2)))
            (seq 0 (num_solutions - num_parents))).
Proof.
  intros Hs [H1 H2]. unfold crossover.
  destruct (num_solutions <? num_parents) eqn:E.
  - apply Nat.ltb_lt in E. lia.
  - unfold for_range, Np.empty.
    pose proof (crossover_loop parents num_parents num_params
                  (Np.uint8 (num_params / 2)) Hs H1
                  (uint8_half_le num_params)
                  (repeat (repeat uninit num_params)
                          (num_solutions - num_parents)) []) as L.
    simpl in L. rewrite repeat_length in L. apply L.
    apply Forall_forall. intros r Hr. apply repeat_spec in Hr. subst.
    apply repeat_length.
Qed.

(* ===================================================================== *)
(** ** mutation: one cell per row *)
(* ===================================================================== *)

Section MutationFacts.

Context `{RS : Np.RandomSource}.

Variable num_params : nat.
Variable param_ranges : list (Q * Q).
Hypothesis some_param : 1 <= num_params.
Hypothesis ranges_len : length param_ranges = num_params.

Lemma mutation_row_redraws (done todo : matrix) (r : row) (g : Np.rng) :
  length r = num_params ->
  exists r' g',
    mutation_row num_params param_ranges (length done)
                 (done ++ r :: todo, g)
    = Ok (done ++ r' :: todo, g') /\
    length r' = num_params /\
    (Forall (fun p => (fst p <= snd p)%Q) param_ranges ->
     one_gene_redrawn num_params param_ranges r r').
Proof.
  intros Hr. unfold mutation_row.
  destruct (num_params =? 0) eqn:E0; [apply Nat.eqb_eq in E0; lia|].
  pose proof (Np.randint_range num_params g some_param) as Hcol.
  destruct (Np.randint num_params g) as [col g1]. simpl in Hcol.
  destruct (split_at param_ranges col ltac:(lia))
    as (pr1 & [lo hi] & pr2 & Epr & Lpr).
  assert (Hnth : nth_error param_ranges col = Some (lo, hi)).
  { rewrite Epr, nth_error_app2 by lia.
    rewrite Lpr, Nat.sub_diag. reflexivity. }
  rewrite (getitem_nth_error _ _ _ Hnth). simpl bind.
  pose proof (Np.uniform_range lo hi g1) as Hv.
  destruct (Np.uniform lo hi g1) as [new_gene g2]. simpl in Hv.
  rewrite getitem_app_mid. simpl bind.
  destruct (split_at r col ltac:(lia)) as (r1 & a & r2 & Er & Lr).
  clear Lpr Epr. rewrite Er in *. rewrite <- Lr in *.
  rewrite setitem_app_mid. simpl bind.
  rewrite setitem_app_mid.
  exists (r1 ++ new_gene :: r2), g2. split; [reflexivity|]. split.
  - rewrite <- Hr, !length_app. reflexivity.
  - intros Hf. exists (length r1), lo, hi, new_gene.
    split; [assumption|]. split; [assumption|]. split.
    + apply Hv. rewrite Forall_forall in Hf.
      apply (Hf (lo, hi)). eapply nth_error_In; eassumption.
    + split; [rewrite !length_app; reflexivity|]. split.
      * rewrite nth_error_app2 by lia.
        rewrite Nat.sub_diag. reflexivity.
      * intros c Hc. destruct (Nat.lt_ge_cases c col) as [Hlt|Hge].
        -- rewrite !nth_error_app1 by lia. reflexivity.
        -- rewrite !nth_error_app2 by lia.
           destruct (c - length r1) as [|d] eqn:Ed; [lia|]. reflexivity.
Qed.

Lemma mutation_loop (todo done : matrix) (g : Np.rng) :
  Forall (fun r => length r = num_params) todo ->
  exists todo' g',
    for_range_from (length done) (length todo)
                   (mutation_row num_params param_ranges) (done ++ todo, g)
    = Ok (done ++ todo', g') /\
    shape (length todo) num_params todo' /\
    (Forall (fun p => (fst p <= snd p)%Q) param_ranges ->
     Forall2 (one_gene_redrawn num_params param_ranges) todo todo').
Proof.
  revert done g. induction todo as [|r todo IH]; intros done g Hf.
  - exists [], g. simpl. repeat split; constructor.
  - apply Forall_cons_iff in Hf as [Hr Hf']. cbn [for_range_from length].
    destruct (mutation_row_redraws done todo r g Hr)
      as (r' & g1 & -> & Lr' & Hone).
    simpl bind.
    destruct (IH (done ++ [r']) g1 Hf') as (todo' & g' & Hrun & Hsh & Hall).
    rewrite length_app in Hrun. simpl in Hrun.
    rewrite Nat.add_1_r, <- app_assoc in Hrun. simpl in Hrun.
    rewrite Hrun. exists (r' :: todo'), g'.
    rewrite <- app_assoc. split; [reflexivity|]. split.
    + destruct Hsh as [L F]. split; [simpl; lia|]. constructor; assumption.
    + intros Hranges. constructor; auto.
Qed.

Lemma mutation_ok (offspring : matrix) (g : Np.rng) :
  Forall (fun r => length r = num_params) offspring ->
  exists mutated g',
    mutation offspring num_params param_ranges g = Ok (mutated, g') /\
    shape (length offspring) num_params mutated /\
    (Forall (fun p => (fst p <= snd p)%Q) param_ranges ->
     Forall2 (one_gene_redrawn num_params param_ranges) offspring mutated).
Proof.
  intros Hf. unfold mutation, for_range.
  exact (mutation_loop offspring [] g Hf).
Qed.

End MutationFacts.

(* ===================================================================== *)
(** ** solver: which rows are evaluated and what is stored *)
(* ===================================================================== *)

Lemma asetslice_fits (a : Np.ndarray) (i1 i2 : nat) (xs : list Q) :
  i1 <= i2 <= Np.size a -> length xs = i2 - i1 ->
  exists a',
    Np.asetslice a i1 i2 xs = Ok a' /\
    Np.values a' = firstn i1 (Np.values a) ++ map (stored_as a) xs
                          ++ skipn i2 (Np.values a) /\
    stored_as a' = stored_as a.
Proof.
  intros Hi Hx. unfold Np.size in Hi.
  destruct a as [l|l]; simpl in *.
  - rewrite length_map in Hi.
    rewrite setslice_fits by (rewrite ?length_map; lia). simpl.
    eexists. split; [reflexivity|]. simpl.
    rewrite !map_app, <- firstn_map, <- skipn_map, map_map. auto.
  - rewrite setslice_fits by lia. simpl.
    eexists. split; [reflexivity|]. simpl. rewrite map_id. auto.
Qed.

Lemma getslice_length {A : Type} (l : list A) (i1 i2 : nat) :
  i1 <= i2 <= length l -> length (Np.getslice l i1 i2) = i2 - i1.
Proof.
  intros H. unfold Np.getslice. rewrite length_firstn, length_skipn. lia.
Qed.

Lemma getslice_app {A : Type} (l : list A) (a b c : nat) :
  a <= b <= c ->
  Np.getslice l a b ++ Np.getslice l b c = Np.getslice l a c.
Proof.
  intros H. unfold Np.getslice.
  replace (c - a) with ((b - a) + (c - b)) by lia.
  rewrite <- (firstn_skipn (b - a) (firstn (b - a + (c - b)) (skipn a l))).
  rewrite firstn_firstn, Nat.min_l by lia. f_equal.
  rewrite skipn_firstn_comm. replace (b - a + (c - b) - (b - a)) with (c - b) by lia.
  rewrite skipn_skipn. replace (b - a + a) with b by lia. reflexivity.
Qed.

Section SolverFacts.

Variable fitnessFun : row -> Q.
Variable population : matrix.
Variables num_solutions num_cpu req_solutions : nat.
Hypothesis some_cpu : 1 <= num_cpu.
Hypothesis req_le : req_solutions <= num_solutions.
Hypothesis population_rows : length population = num_solutions.

Lemma solver_loop_closed_form (comp_solutions : nat) (fitness : Np.ndarray)
      (batches : list (list nat)) :
  comp_solutions <= req_solutions ->
  Np.size fitness = num_solutions ->
  exists fitness' new_batches,
    solver_loop fitnessFun population num_solutions num_cpu req_solutions
                comp_solutions fitness batches
    = Ok (fitness', batches ++ new_batches) /\
    Permutation (concat new_batches)
                (seq (num_solutions - req_solutions)
                     (req_solutions - comp_solutions)) /\
    Np.values fitness'
    = firstn (num_solutions - req_solutions) (Np.values fitness)
      ++ map (fun r => stored_as fitness (fitnessFun r))
             (Np.getslice population (num_solutions - req_solutions)
                          (num_solutions - comp_solutions))
      ++ skipn (num_solutions - comp_solutions) (Np.values fitness) /\
    stored_as fitness' = stored_as fitness.
Proof.
  funelim (solver_loop fitnessFun population num_solutions num_cpu
                       req_solutions comp_solutions fitness batches).
  - intros Hc Hs. exists fitness0, []. rewrite app_nil_r.
    split; [reflexivity|].
    replace comp_solutions with req_solutions by lia.
    rewrite Nat.sub_diag. split; [constructor|]. split; [|reflexivity].
    unfold Np.getslice. rewrite Nat.sub_diag. simpl.
    symmetry. apply firstn_skipn.
  - intros Hc Hs. lia.
  - intros Hc Hs.
    set (np := Nat.min (req_solutions - comp_solutions) num_cpu) in *.
    assert (Hnp : 1 <= np <= req_solutions - comp_solutions)
      by (unfold np; lia).
    set (i1 := num_solutions - comp_solutions - np) in *.
    replace (i1 + np) with (num_solutions - comp_solutions) in * by lia.
    replace (num_solutions - (comp_solutions + np)) with i1 in * by lia.
    set (i2 := num_solutions - comp_solutions) in *.
    assert (Lrows : length (Np.getslice population i1 i2) = np)
      by (rewrite getslice_length; lia).
    rewrite Lrows in *.
    destruct (asetslice_fits fitness0 i1 i2
                (map fitnessFun (Np.getslice population i1 i2)))
      as (a' & Ea & Va & Sa);
      [lia | rewrite length_map, Lrows; lia |].
    rewrite Ea.
    assert (Lv : length (Np.values fitness0) = num_solutions) by exact Hs.
    destruct (H a') as (f2 & nb & Hrun & Hperm & Hval & Hst).
    { lia. }
    { unfold Np.size. rewrite Va.
      rewrite !length_app, length_firstn, !length_map, length_skipn, Lrows.
      lia. }
    rewrite Hrun. exists f2, (seq i1 np :: nb).
    split; [rewrite <- app_assoc; reflexivity|]. split.
    + simpl concat.
      replace (req_solutions - comp_solutions)
        with ((req_solutions - (comp_solutions + np)) + np) by lia.
      rewrite seq_app.
      replace (num_solutions - req_solutions
               + (req_solutions - (comp_solutions + np))) with i1 by lia.
      eapply Permutation_trans; [|apply Permutation_app_comm].
      apply Permutation_app_head. exact Hperm.
    + split; [|congruence].
      rewrite Hval, Va, Sa.
      set (A := num_solutions - req_solutions) in *.
      set (v := Np.values fitness0) in *.
      set (g := fun r : row => stored_as fitness0 (fitnessFun r)).
      assert (LA : A <= i1) by lia.
      rewrite firstn_app, firstn_firstn, length_firstn.
      replace (Nat.min A i1) with A by lia.
      replace (A - Nat.min i1 (length v)) with 0 by lia.
      simpl firstn. rewrite app_nil_r.
      rewrite skipn_app, length_firstn.
      replace (i1 - Nat.min i1 (length v)) with 0 by lia.
      rewrite (skipn_all2 (n := i1)) by (rewrite length_firstn; lia).
      simpl skipn. simpl app.
      rewrite <- (getslice_app population A i1 i2) by lia.
      rewrite map_app, <- !app_assoc, map_map. reflexivity.
Qed.

End SolverFacts.

Lemma solver_closed_form (fitnessFun : row -> Q) (fitness : Np.ndarray)
      (population : matrix) (no_data : bool)
      (num_solutions num_parents num_cpu : nat) :
  1 <= num_cpu -> num_parents <= num_solutions ->
  length population = num_solutions ->
  Np.size fitness = num_solutions ->
  let kept := if no_data then 0 else num_parents in
  exists fitness' batches,
    solver fitnessFun fitness population no_data
           num_solutions num_parents num_cpu = Ok (fitness', batches) /\
    Permutation (concat batches)
                (required_rows no_data num_solutions num_parents) /\
    Np.values fitness'
    = firstn kept (Np.values fitness)
      ++ map (fun r => stored_as fitness (fitnessFun r)) (skipn kept population) /\
    stored_as fitness' = stored_as fitness.
Proof.
  intros Hcpu Hnp Hpop Hfit kept. unfold solver.
  set (req := if no_data then num_solutions else num_solutions - num_parents).
  assert (Hreq : req <= num_solutions) by (unfold req; destruct no_data; lia).
  assert (Hkept : num_solutions - req = kept)
    by (unfold req, kept; destruct no_data; lia).
  destruct (solver_loop_closed_form fitnessFun population num_solutions
              num_cpu req Hcpu Hreq Hpop 0 fitness [] ltac:(lia) Hfit)
    as (f' & nb & Hrun & Hperm & Hval & Hst).
  simpl in Hrun. rewrite Hrun. exists f', nb.
  split; [reflexivity|]. split; [|split; [|exact Hst]].
  - rewrite Hkept, Nat.sub_0_r in Hperm.
    unfold required_rows. unfold req, kept in *.
    destruct no_data; exact Hperm.
  - rewrite Hval, Hkept, Nat.sub_0_r.
    rewrite <- Hpop, getslice_suffix.
    rewrite (skipn_all2 (n := length population))
      by (unfold Np.size in Hfit; lia).
    rewrite app_nil_r. reflexivity.
Qed.

(* ===================================================================== *)
(** ** Index arrays: take and argsort *)
(* ===================================================================== *)

Lemma take_seq {A : Type} (d : A) (l : list A) :
  Np.take d l (seq 0 (length l)) = l.
Proof.
  unfold Np.take. apply nth_ext with (d := d) (d' := d).
  - rewrite length_map, length_seq. reflexivity.
  - intros n Hn. rewrite length_map, length_seq in Hn.
    rewrite (nth_indep _ d (nth 0 l d))
      by (rewrite length_map, length_seq; exact Hn).
    rewrite (map_nth (fun i => nth i l d) (seq 0 (length l)) 0 n).
    rewrite seq_nth by exact Hn. reflexivity.
Qed.

Lemma take_permutation {A : Type} (d : A) (l : list A) (idx : list nat) :
  Permutation idx (seq 0 (length l)) -> Permutation (Np.take d l idx) l.
Proof.
  intros H. rewrite <- (take_seq d l) at 2.
  unfold Np.take. apply Permutation_map. exact H.
Qed.

Lemma take_length {A : Type} (d : A) (l : list A) (idx : list nat) :
  length (Np.take d l idx) = length idx.
Proof. unfold Np.take. apply length_map. Qed.

Lemma values_atake (a : Np.ndarray) (idx : list nat) :
  Np.values (Np.atake a idx) = Np.take 0%Q (Np.values a) idx.
Proof.
  destruct a as [l|l]; simpl; [|reflexivity].
  unfold Np.take. rewrite map_map. apply map_ext. intros i.
  change 0%Q with (inject_Z 0). symmetry. apply map_nth.
Qed.

Lemma sorted_head_least (l : list Q) (v : Q) :
  StronglySorted Qle l -> In v l -> (nth 0 l 0 <= v)%Q.
Proof.
  intros Hs Hin. destruct l as [|h t]; [contradiction|].
  simpl. apply StronglySorted_inv in Hs as [_ Hf].
  destruct Hin as [->|Hin]; [apply Qle_refl|].
  rewrite Forall_forall in Hf. auto.
Qed.

Section ArgsortFacts.

Context `{AS : Np.Argsort}.

Lemma argsort_length (keys : list Q) :
  length (Np.argsort keys) = length keys.
Proof.
  rewrite (Permutation_length (Np.argsort_perm keys)). apply length_seq.
Qed.

Lemma argsort_in_range (keys : list Q) (i : nat) :
  In i (Np.argsort keys) <-> i < length keys.
Proof.
  split; intros H.
  - apply (Permutation_in _ (Np.argsort_perm keys)) in H.
    apply in_seq in H. lia.
  - apply (Permutation_in _ (Permutation_sym (Np.argsort_perm keys))).
    apply in_seq. lia.
Qed.

(** The sort leaves an ascending fitness vector of the same entries. *)
Lemma ranked_values (a : Np.ndarray) :
  let a' := Np.atake a (Np.argsort (Np.values a)) in
  StronglySorted Qle (Np.values a') /\
  Permutation (Np.values a') (Np.values a) /\
  Np.size a' = Np.size a.
Proof.
  simpl. rewrite values_atake. split; [apply Np.argsort_sorted|]. split.
  - apply take_permutation. apply Np.argsort_perm.
  - unfold Np.size. rewrite values_atake, take_length. apply argsort_length.
Qed.

End ArgsortFacts.

(* ===================================================================== *)
(** ** The two index sorts meet the argsort interface *)
(* ===================================================================== *)

Section InsertionArgsort.

Variable before : Q -> Q -> bool.
Hypothesis before_le : forall x y, before x y = true -> (x <= y)%Q.
Hypothesis not_before_ge : forall x y, before x y = false -> (y <= x)%Q.

Variable keys : list Q.

Let key (i : nat) : Q := nth i keys 0%Q.
Let key_le (i j : nat) : Prop := (key i <= key j)%Q.

Lemma insert_index_perm (i : nat) (l : list nat) :
  Permutation (insert_index before keys i l) (i :: l).
Proof.
  induction l as [|j l IH]; simpl.
  - apply Permutation_refl.
  - destruct (before _ _).
    + apply Permutation_refl.
    + eapply Permutation_trans; [apply perm_skip, IH | apply perm_swap].
Qed.

Lemma insert_index_hd (i a : nat) (l : list nat) :
  key_le a i -> HdRel key_le a l ->
  HdRel key_le a (insert_index before keys i l).
Proof.
  intros Hai Hl. destruct l as [|j l]; simpl.
  - constructor. exact Hai.
  - destruct (before _ _); constructor.
    + exact Hai.
    + inversion Hl; assumption.
Qed.

Lemma insert_index_sorted (i : nat) (l : list nat) :
  Sorted key_le l -> Sorted key_le (insert_index before keys i l).
Proof.
  induction l as [|j l IH]; intros Hs; simpl.
  - repeat constructor.
  - destruct (before (nth i keys 0%Q) (nth j keys 0%Q)) eqn:E.
    + constructor; [exact Hs|]. constructor. apply before_le. exact E.
    + inversion Hs as [|? ? Hs' Hhd]; subst. constructor.
      * apply IH. exact Hs'.
      * apply insert_index_hd; [|exact Hhd]. apply not_before_ge. exact E.
Qed.

Lemma insert_all_perm (xs acc : list nat) :
  Permutation
    (fold_left (fun acc i => insert_index before keys i acc) xs acc)
    (xs ++ acc).
Proof.
  revert acc. induction xs as [|x xs IH]; intros acc; simpl.
  - apply Permutation_refl.
  - eapply Permutation_trans; [apply IH|].
    eapply Permutation_trans;
      [apply Permutation_app_head, insert_index_perm|].
    apply Permutation_sym, Permutation_middle.
Qed.

Lemma insert_all_sorted (xs acc : list nat) :
  Sorted key_le acc ->
  Sorted key_le
         (fold_left (fun acc i => insert_index before keys i acc) xs acc).
Proof.
  revert acc. induction xs as [|x xs IH]; intros acc Hs; simpl.
  - exact Hs.
  - apply IH, insert_index_sorted, Hs.
Qed.

Lemma argsort_by_perm :
  Permutation (argsort_by before keys) (seq 0 (length keys)).
Proof.
  unfold argsort_by.
  eapply Permutation_trans; [apply insert_all_perm|].
  rewrite app_nil_r. apply Permutation_refl.
Qed.

Lemma argsort_by_sorted :
  StronglySorted Qle (Np.take 0%Q keys (argsort_by before keys)).
Proof.
  assert (Hs : StronglySorted key_le (argsort_by before keys)).
  { apply Sorted_StronglySorted.
    - intros a b c Hab Hbc. unfold key_le in *. eapply Qle_trans; eassumption.
    - unfold argsort_by. apply insert_all_sorted. constructor. }
  unfold Np.take. induction Hs as [|a l Hl IH Hf]; simpl.
  - constructor.
  - constructor; [exact IH|].
    rewrite Forall_forall in *. intros x Hx.
    apply in_map_iff in Hx as (j & <- & Hj). apply (Hf j Hj).
Qed.

End InsertionArgsort.

Lemma Qlt_bool_le (x y : Q) : Qlt_bool x y = true -> (x <= y)%Q.
Proof.
  unfold Qlt_bool. intros H. apply negb_true_iff in H.
  destruct (Qlt_le_dec x y) as [Hlt|Hle].
  - apply Qlt_le_weak. exact Hlt.
  - apply Qle_bool_iff in Hle. congruence.
Qed.

Lemma Qlt_bool_ge (x y : Q) : Qlt_bool x y = false -> (y <= x)%Q.
Proof.
  unfold Qlt_bool. intros H. apply negb_false_iff in H.
  apply Qle_bool_iff. exact H.
Qed.

Lemma Qle_bool_ge (x y : Q) : Qle_bool x y = false -> (y <= x)%Q.
Proof.
  intros H. destruct (Qlt_le_dec y x) as [Hlt|Hle].
  - apply Qlt_le_weak. exact Hlt.
  - apply Qle_bool_iff in Hle. congruence.
Qed.

#[export] Instance stable_argsort : Np.Argsort := {|
  Np.argsort := argsort_stable;
  Np.argsort_perm := argsort_by_perm Qlt_bool;
  Np.argsort_sorted := argsort_by_sorted Qlt_bool Qlt_bool_le Qlt_bool_ge
|}.

Definition ties_reversed_argsort : Np.Argsort := {|
  Np.argsort := argsort_ties_reversed;
  Np.argsort_perm := argsort_by_perm Qle_bool;
  Np.argsort_sorted :=
    argsort_by_sorted Qle_bool Qle_bool_imp_le Qle_bool_ge
|}.

Lemma counter_fraction_unit (g : nat) :
  (0 <= counter_fraction g <= 3 # 4)%Q.
Proof.
  unfold counter_fraction.
  destruct (g mod 4) as [|[|[|k]]]; split; unfold Qle; simpl; lia.
Qed.

Lemma counter_randint_range (n g : nat) :
  0 < n -> fst (counter_randint n g) < n.
Proof. intros H. simpl. apply Nat.mod_upper_bound. lia. Qed.

Lemma counter_uniform_range (lo hi : Q) (g : nat) :
  (lo <= hi)%Q -> (lo <= fst (counter_uniform lo hi g) <= hi)%Q.
Proof.
  intros H. simpl. pose proof (counter_fraction_unit g) as [F0 F1].
  set (f := counter_fraction g) in *. split; nra.
Qed.

#[export] Instance counter_random : Np.RandomSource := {|
  Np.rng := nat;
  Np.randint := counter_randint;
  Np.uniform := counter_uniform;
  Np.randint_range := counter_randint_range;
  Np.uniform_range := counter_uniform_range
|}.

(* ===================================================================== *)
(** ** Stores into tables of the right shape *)
(* ===================================================================== *)

Lemma Forall_firstn_skipn {A : Type} (P : A -> Prop) (n : nat) (l : list A) :
  Forall P l -> Forall P (firstn n l) /\ Forall P (skipn n l).
Proof.
  intros H. rewrite <- (firstn_skipn n l) in H.
  apply Forall_app in H. exact H.
Qed.

Lemma setrows_zip_fits (cols : nat) (rows vals : matrix) :
  length rows = length vals ->
  Forall (fun r => length r = cols) rows ->
  Forall (fun r => length r = cols) vals ->
  Np.setrows_zip rows vals = Ok vals.
Proof.
  revert vals. induction rows as [|r rows IH]; intros [|v vals] L Hr Hv;
    simpl in *; try discriminate; try reflexivity.
  apply Forall_cons_iff in Hr as [Lr Hr].
  apply Forall_cons_iff in Hv as [Lv Hv].
  rewrite setslice_fits by lia. simpl.
  rewrite IH by (auto; lia). simpl.
  rewrite skipn_all, app_nil_r. reflexivity.
Qed.

Lemma setrows_fits (cols : nat) (m vals : matrix) (i1 : nat) :
  i1 <= length m -> length vals = length m - i1 ->
  Forall (fun r => length r = cols) m ->
  Forall (fun r => length r = cols) vals ->
  Np.setrows m i1 vals = Ok (firstn i1 m ++ vals).
Proof.
  intros Hi Hv Hm Hvals. unfold Np.setrows.
  rewrite Nat.min_l by exact Hi.
  rewrite broadcast_same by exact Hv. simpl.
  rewrite (setrows_zip_fits cols).
  - reflexivity.
  - rewrite length_skipn. lia.
  - apply Forall_firstn_skipn. exact Hm.
  - exact Hvals.
Qed.

Lemma vstack_fits (cols : nat) (a : matrix) (r : row) :
  Forall (fun x => length x = cols) a -> length r = cols ->
  Np.vstack a r = Ok (a ++ [r]).
Proof.
  intros Ha Hr. unfold Np.vstack.
  replace (forallb (fun x => length x =? length r) a) with true;
    [reflexivity|].
  symmetry. apply forallb_forall. intros x Hx.
  rewrite Forall_forall in Ha. apply Nat.eqb_eq. rewrite Hr. auto.
Qed.

Lemma offspring_genes_length (parents : matrix) (num_parents num_params cp k : nat) :
  shape num_parents num_params parents -> 1 <= num_parents ->
  cp <= num_params ->
  length (offspring_genes parents num_parents cp k) = num_params.
Proof.
  intros Hs Hp Hcp. unfold offspring_genes.
  assert (H1 : k mod num_parents < num_parents)
    by (apply Nat.mod_upper_bound; lia).
  assert (H2 : (k + 1) mod num_parents < num_parents)
    by (apply Nat.mod_upper_bound; lia).
  destruct (shaped_row _ _ _ _ Hs H1) as [_ L1].
  destruct (shaped_row _ _ _ _ Hs H2) as [_ L2].
  rewrite length_app, length_firstn, length_skipn. lia.
Qed.

Lemma shape_firstn (rows cols n : nat) (m : matrix) :
  shape rows cols m -> n <= rows -> shape n cols (firstn n m).
Proof.
  intros [L F] Hn. split.
  - rewrite length_firstn. lia.
  - apply Forall_firstn_skipn. exact F.
Qed.

Lemma shape_app (r1 r2 cols : nat) (m1 m2 : matrix) :
  shape r1 cols m1 -> shape r2 cols m2 -> shape (r1 + r2) cols (m1 ++ m2).
Proof.
  intros [L1 F1] [L2 F2]. split.
  - rewrite length_app. lia.
  - apply Forall_app. split; assumption.
Qed.

Lemma shape_take (rows cols : nat) (m : matrix) (idx : list nat) :
  shape rows cols m -> Forall (fun i => i < rows) idx ->
  shape (length idx) cols (Np.take [] m idx).
Proof.
  intros [L F] Hidx. split; [apply take_length|].
  unfold Np.take. apply Forall_forall. intros r Hr.
  apply in_map_iff in Hr as (i & <- & Hi).
  rewrite Forall_forall in F. rewrite Forall_forall in Hidx.
  apply F. apply nth_In. apply Hidx in Hi. unfold matrix, row in *. lia.
Qed.

Lemma setitem_at {A : Type} (l1 l2 : list A) (a v : A) (i : nat) :
  length l1 = i -> setitem (l1 ++ a :: l2) i v = Ok (l1 ++ v :: l2).
Proof. intros <-. apply setitem_app_mid. Qed.

Lemma getitem_nth {A : Type} (d : A) (l : list A) (i : nat) :
  i < length l -> getitem l i = Ok (nth i l d).
Proof. intros H. apply getitem_nth_error, nth_error_nth'. exact H. Qed.

Lemma make_record_fits (num_params rows count : nat) (uninit : Q)
      (population : matrix) (fitness : Np.ndarray) :
  shape rows num_params population -> 1 <= rows -> 1 <= Np.size fitness ->
  make_record num_params uninit count population fitness
  = Ok (record_entry count (nth 0 population [])
                     (nth 0 (Np.values fitness) 0%Q)).
Proof.
  intros Hs Hr Hf. unfold make_record, Np.empty1.
  destruct (shaped_row _ _ _ 0 Hs ltac:(lia)) as [Hget Hlen].
  cbn [repeat Nat.add setitem bind]. rewrite Hget. cbn [bind].
  set (best := nth 0 population []) in *.
  rewrite setslice_fits;
    [| cbn [length]; rewrite repeat_length; lia | lia].
  cbn [bind firstn].
  rewrite (getitem_nth 0%Q) by exact Hf. cbn [bind].
  assert (Hsk : forall c : Q,
             skipn (num_params + 1) (c :: uninit :: repeat uninit num_params)
             = [uninit]).
  { intros c. rewrite Nat.add_1_r. cbn [skipn]. clear.
    induction num_params as [|n IH]; [reflexivity | exact IH]. }
  rewrite Hsk. unfold record_entry.
  change ((inject_Z (Z.of_nat count) :: []) ++ best ++ [uninit])
    with ((inject_Z (Z.of_nat count) :: best) ++ [uninit]).
  rewrite setitem_at by (cbn [length]; lia). reflexivity.
Qed.

(* ===================================================================== *)
(** ** One generation on a well-shaped state *)
(* ===================================================================== *)

Section EngineFacts.

Context `{RS : Np.RandomSource} `{AS : Np.Argsort}.

Variable fitnessFun : row -> Q.
Variable output_file : string.
Variables num_params num_solutions num_parents : nat.
Variable param_ranges : list (Q * Q).
Variable num_cpu : nat.
Variable uninit : Q.

Hypothesis some_param : 1 <= num_params.
Hypothesis parents_bounds : 1 <= num_parents <= num_solutions.
Hypothesis ranges_len : length param_ranges = num_params.
Hypothesis some_cpu : 1 <= num_cpu.

Local Notation "'breed'" :=
  (breed_and_evaluate fitnessFun num_params num_solutions num_parents
                      param_ranges num_cpu uninit).
Local Notation "'rank'" :=
  (rank_and_record output_file num_params uninit).
Local Notation "'step'" :=
  (generation fitnessFun output_file num_params num_solutions num_parents
              param_ranges num_cpu uninit).
Local Notation "'steps'" :=
  (generations fitnessFun output_file num_params num_solutions num_parents
               param_ranges num_cpu uninit).
Local Notation "'shaped'" := (well_shaped num_params num_solutions).

(** Before the sort: the parents' rows stay, offspring fill the rest, the
    required rows are the ones evaluated, and the other fitness entries
    are the ones the state came with. *)
Lemma breed_and_evaluate_ok (s : RunState) :
  shaped s ->
  let kept := if no_data s then 0 else num_parents in
  exists offspring fitness1 g batches,
    breed s = Ok (firstn num_parents (population s) ++ offspring,
                  fitness1, g, batches) /\
    shape (num_solutions - num_parents) num_params offspring /\
    Permutation (concat batches)
                (required_rows (no_data s) num_solutions num_parents) /\
    Np.values fitness1
    = firstn kept (Np.values (fitness s))
      ++ map (fun r => stored_as (fitness s) (fitnessFun r))
             (skipn kept (firstn num_parents (population s) ++ offspring)) /\
    Np.size fitness1 = num_solutions.
Proof.
  intros (Hpop & Hfit & Hrec) kept. unfold breed_and_evaluate.
  rewrite getslice_prefix.
  pose proof (shape_firstn _ _ num_parents _ Hpop ltac:(lia)) as Hparents.
  rewrite (crossover_closed_form uninit _ _ _ _ Hparents parents_bounds).
  cbn [bind].
  set (crossed := map _ (seq 0 (num_solutions - num_parents))).
  assert (Hcrossed : shape (num_solutions - num_parents) num_params crossed).
  { split.
    - unfold crossed. rewrite length_map, length_seq. reflexivity.
    - apply Forall_forall. intros r Hr. unfold crossed in Hr.
      apply in_map_iff in Hr as (k & <- & _).
      apply offspring_genes_length; [exact Hparents | lia |].
      apply uint8_half_le. }
  destruct Hcrossed as [Lc Fc].
  destruct (mutation_ok num_params param_ranges some_param ranges_len
              crossed (gen s) Fc) as (offspring & g & Hmut & Hoff & _).
  rewrite Hmut.
  cbn [bind fst snd]. rewrite Lc in Hoff.
  destruct Hpop as [Lp Fp]. destruct Hoff as [Lo Fo].
  rewrite (setrows_fits num_params) by (auto; lia). cbn [bind].
  set (population1 := firstn num_parents (population s) ++ offspring).
  assert (Lp1 : length population1 = num_solutions).
  { unfold population1. rewrite length_app, length_firstn. lia. }
  destruct (solver_closed_form fitnessFun (fitness s) population1 (no_data s)
              num_solutions num_parents num_cpu some_cpu
              ltac:(lia) Lp1 Hfit)
    as (fitness1 & batches & Hsol & Hperm & Hval & _).
  rewrite Hsol. cbn [bind fst snd].
  exists offspring, fitness1, g, batches.
  split; [reflexivity|]. split; [split; assumption|].
  split; [exact Hperm|]. split; [exact Hval|].
  unfold Np.size. rewrite Hval.
  rewrite length_app, length_map, length_firstn, length_skipn.
  unfold Np.size in Hfit. unfold kept. destruct (no_data s); lia.
Qed.

Lemma record_entry_length (count : nat) (best : row) (f : Q) :
  length best = num_params ->
  length (record_entry count best f) = num_params + 2.
Proof.
  intros H. unfold record_entry. cbn [length].
  rewrite length_app. cbn [length]. lia.
Qed.

(** The sort and the record, on tables of the announced shape. *)
Lemma rank_and_record_ok (s : RunState) (population1 : matrix)
      (fitness1 : Np.ndarray) (g : Np.rng) (batches : list (list nat)) :
  shape num_solutions num_params population1 ->
  Np.size fitness1 = num_solutions ->
  (no_data s = false ->
   Forall (fun r => length r = num_params + 2) (record s)) ->
  exists s',
    rank s population1 fitness1 g batches = Ok s' /\
    population s'
    = Np.take [] population1 (Np.argsort (Np.values fitness1)) /\
    fitness s' = Np.atake fitness1 (Np.argsort (Np.values fitness1)) /\
    record s'
    = recorded_entries s
      ++ [record_entry (recorded_count s + 1)
                       (nth 0 (population s') [])
                       (nth 0 (Np.values (fitness s')) 0%Q)] /\
    recorded_generations s' = recorded_count s + 1 /\
    no_data s' = false /\
    gen s' = g /\
    evals s' = evals s ++ batches /\
    (exists ops, wb s' = wb s ++ ops ++ [Save None]) /\
    shaped s'.
Proof.
  intros Hpop Hfit Hrec. unfold rank_and_record.
  set (sinds := Np.argsort (Np.values fitness1)).
  set (population2 := Np.take [] population1 sinds).
  set (fitness2 := Np.atake fitness1 sinds).
  assert (Lsinds : length sinds = num_solutions).
  { unfold sinds. rewrite argsort_length. exact Hfit. }
  assert (Hpop2 : shape num_solutions num_params population2).
  { rewrite <- Lsinds. apply (shape_take num_solutions); [exact Hpop|].
    apply Forall_forall. intros i Hi. unfold sinds in Hi.
    apply argsort_in_range in Hi. unfold Np.size in Hfit. lia. }
  assert (Hfit2 : Np.size fitness2 = num_solutions).
  { pose proof (ranked_values fitness1) as (_ & _ & H).
    unfold fitness2, sinds. rewrite H. exact Hfit. }
  assert (Hbest : length (nth 0 population2 []) = num_params).
  { apply (shaped_row _ _ _ 0 Hpop2). lia. }
  destruct (no_data s) eqn:End.
  - rewrite (make_record_fits num_params num_solutions) by (auto; lia).
    cbn [bind]. eexists. split; [reflexivity|]. cbn.
    unfold recorded_entries, recorded_count. rewrite End.
    repeat split; try reflexivity; try apply Hpop2; try exact Hfit2.
    + eexists [_; _; _; _; _]. rewrite <- !app_assoc. reflexivity.
    + intros _. constructor; [|constructor].
      apply record_entry_length. exact Hbest.
  - rewrite (make_record_fits num_params num_solutions) by (auto; lia).
    cbn [bind].
    rewrite (vstack_fits (num_params + 2))
      by (auto using record_entry_length).
    cbn [bind]. eexists. split; [reflexivity|]. cbn.
    unfold recorded_entries, recorded_count. rewrite End.
    repeat split; try reflexivity; try apply Hpop2; try exact Hfit2.
    + eexists [_; _; _; _]. rewrite <- !app_assoc. reflexivity.
    + intros _. apply Forall_app. split; [auto|].
      constructor; [|constructor].
      apply record_entry_length. exact Hbest.
Qed.

Lemma generations_snoc (n : nat) (s : RunState) :
  steps (S n) s = (s' <- steps n s ;; step s').
Proof.
  revert s. induction n as [|n IH]; intros s.
  - cbn [generations bind]. destruct (step s); reflexivity.
  - change (steps (S (S n)) s) with (s1 <- step s ;; steps (S n) s1).
    change (steps (S n) s) with (s1 <- step s ;; steps n s1).
    destruct (step s) as [s1|e]; cbn [bind]; [apply IH | reflexivity].
Qed.

(** A generation on a well-shaped state completes, and leaves a
    well-shaped state that is no longer fresh. *)
Lemma generation_completes (s : RunState) :
  shaped s ->
  exists s', step s = Ok s' /\ shaped s' /\ no_data s' = false.
Proof.
  intros Hs.
  destruct (breed_and_evaluate_ok s Hs)
    as (offspring & fitness1 & g & batches & Hb & Hoff & _ & _ & Hsize).
  destruct Hs as (Hpop & Hfit & Hrec).
  assert (Hpop1 : shape num_solutions num_params
                        (firstn num_parents (population s) ++ offspring)).
  { replace num_solutions
      with (num_parents + (num_solutions - num_parents)) at 1 by lia.
    apply shape_app; [|exact Hoff].
    apply (shape_firstn num_solutions); [exact Hpop | lia]. }
  destruct (rank_and_record_ok s _ fitness1 g batches Hpop1 Hsize Hrec)
    as (s' & Hr & _ & _ & _ & _ & Hnd & _ & _ & _ & Hs').
  exists s'. unfold generation. rewrite Hb. cbn [bind]. auto.
Qed.

Lemma generations_complete (n : nat) (s : RunState) :
  shaped s ->
  exists s', steps n s = Ok s' /\ shaped s' /\ (1 <= n -> no_data s' = false).
Proof.
  intros Hs. induction n as [|n (s1 & Hrun & Hs1 & _)].
  - exists s. split; [reflexivity|]. split; [exact Hs | lia].
  - destruct (generation_completes s1 Hs1) as (s2 & Hstep & Hs2 & Hnd).
    exists s2. rewrite generations_snoc, Hrun. cbn [bind]. auto.
Qed.

(** One generation, start to end, on a well-shaped state. *)
Lemma generation_ok (s : RunState) :
  shaped s ->
  exists offspring fitness1 g batches s',
    let population1 := firstn num_parents (population s) ++ offspring in
    let kept := if no_data s then 0 else num_parents in
    let sinds := Np.argsort (Np.values fitness1) in
    breed s = Ok (population1, fitness1, g, batches) /\
    step s = Ok s' /\
    shape num_solutions num_params population1 /\
    Permutation (concat batches)
                (required_rows (no_data s) num_solutions num_parents) /\
    Np.values fitness1
    = firstn kept (Np.values (fitness s))
      ++ map (fun r => stored_as (fitness s) (fitnessFun r))
             (skipn kept population1) /\
    Np.size fitness1 = num_solutions /\
    population s' = Np.take [] population1 sinds /\
    fitness s' = Np.atake fitness1 sinds /\
    record s'
    = recorded_entries s
      ++ [record_entry (recorded_count s + 1)
                       (nth 0 (population s') [])
                       (nth 0 (Np.values (fitness s')) 0%Q)] /\
    recorded_generations s' = recorded_count s + 1 /\
    no_data s' = false /\
    evals s' = evals s ++ batches /\
    shaped s'.
Proof.
  intros Hs.
  destruct (breed_and_evaluate_ok s Hs)
    as (offspring & fitness1 & g & batches & Hb & Hoff & Hperm & Hval & Hsize).
  destruct Hs as (Hpop & Hfit & Hrec).
  assert (Hpop1 : shape num_solutions num_params
                        (firstn num_parents (population s) ++ offspring)).
  { replace num_solutions
      with (num_parents + (num_solutions - num_parents)) at 1 by lia.
    apply shape_app; [|exact Hoff].
    apply (shape_firstn num_solutions); [exact Hpop | lia]. }
  destruct (rank_and_record_ok s _ fitness1 g batches Hpop1 Hsize Hrec)
    as (s' & Hr & Hp' & Hf' & Hrec' & Hcnt & Hnd & _ & Hev & _ & Hs').
  exists offspring, fitness1, g, batches, s'. cbn zeta.
  split; [exact Hb|].
  split; [unfold generation; rewrite Hb; exact Hr|].
  repeat (split; [assumption|]). assumption.
Qed.

(** C4.  For every valid configuration and every generation the loop
    completes from a well-shaped state: the fitness vector it leaves is
    ascending, entry 0 is its minimum, and population and fitness are the
    tables as they stood before the sort, both read through one and the same
    index array, which is a permutation of the row indices; so row 0 is
    the individual that owns the minimum. *)
Theorem generation_leaves_population_ranked (s0 : RunState) (k : nat) :
  shaped s0 ->
  exists s s' population1 fitness1 g batches,
    steps k s0 = Ok s /\ steps (S k) s0 = Ok s' /\
    breed s = Ok (population1, fitness1, g, batches) /\
    Permutation (Np.argsort (Np.values fitness1)) (seq 0 num_solutions) /\
    population s'
    = Np.take [] population1 (Np.argsort (Np.values fitness1)) /\
    fitness s' = Np.atake fitness1 (Np.argsort (Np.values fitness1)) /\
    StronglySorted Qle (Np.values (fitness s')) /\
    (forall v, In v (Np.values (fitness s')) ->
               (nth 0 (Np.values (fitness s')) 0 <= v)%Q).
Proof.
  intros Hs0.
  destruct (generations_complete k s0 Hs0) as (s & Hrun & Hs & _).
  destruct (generation_ok s Hs)
    as (offspring & fitness1 & g & batches & s' & Hb & Hstep & _ & _ & _
        & Hsize & Hp' & Hf' & _).
  exists s, s', (firstn num_parents (population s) ++ offspring),
    fitness1, g, batches.
  split; [exact Hrun|].
  split; [rewrite generations_snoc, Hrun; exact Hstep|].
  split; [exact Hb|].
  split; [rewrite <- Hsize; apply Np.argsort_perm|].
  split; [exact Hp'|]. split; [exact Hf'|].
  pose proof (ranked_values fitness1) as (Hsorted & _ & _).
  rewrite <- Hf' in Hsorted.
  split; [exact Hsorted|].
  intros v Hv. apply sorted_head_least; assumption.
Qed.

(** C5.  After [k] generations completed in this run the record is the
    record the run started from followed by exactly [k] new rows, so its
    length is the number of generations recorded before plus [k] and no
    earlier row was dropped, cut or moved; the count kept alongside grows
    in step, and row [j] of the new ones holds the count, row 0 of the
    population and entry 0 of the fitness as they stood after generation
    [j+1]. *)
Theorem record_grows_one_entry_per_generation (s0 : RunState) (k : nat) :
  shaped s0 ->
  exists s new_entries,
    steps k s0 = Ok s /\
    shaped s /\
    recorded_entries s = recorded_entries s0 ++ new_entries /\
    length new_entries = k /\
    length (recorded_entries s) = length (recorded_entries s0) + k /\
    recorded_count s = recorded_count s0 + k /\
    (1 <= k -> record s = recorded_entries s /\
               recorded_generations s = recorded_count s) /\
    (forall j, j < k ->
       exists sj,
         steps (S j) s0 = Ok sj /\
         nth j new_entries []
         = record_entry (recorded_count s0 + S j)
                        (nth 0 (population sj) [])
                        (nth 0 (Np.values (fitness sj)) 0%Q)).
Proof.
  intros Hs0. induction k as [|k IH].
  - exists s0, []. rewrite app_nil_r, !Nat.add_0_r.
    repeat (split; [first [reflexivity | assumption]|]).
    split; [lia|]. intros j Hj. lia.
  - destruct IH as (s & new & Hrun & Hs & Hent & Hlen & _ & Hcnt & _ & Hnew).
    destruct (generation_ok s Hs)
      as (offspring & fitness1 & g & batches & s' & _ & Hstep & _ & _ & _
          & _ & _ & _ & Hrec & Hgen & Hnd & _ & Hs').
    assert (Hrun' : steps (S k) s0 = Ok s')
      by (rewrite generations_snoc, Hrun; exact Hstep).
    assert (He : recorded_entries s' = record s')
      by (unfold recorded_entries; rewrite Hnd; reflexivity).
    assert (Hc : recorded_count s' = recorded_generations s')
      by (unfold recorded_count; rewrite Hnd; reflexivity).
    set (entry := record_entry (recorded_count s + 1)
                               (nth 0 (population s') [])
                               (nth 0 (Np.values (fitness s')) 0%Q)) in *.
    exists s', (new ++ [entry]).
    split; [exact Hrun'|]. split; [exact Hs'|].
    split; [rewrite He, Hrec, Hent, <- app_assoc; reflexivity|].
    split; [rewrite length_app; cbn [length]; lia|].
    split; [rewrite He, Hrec, Hent, !length_app; cbn [length]; lia|].
    split; [rewrite Hc, Hgen, Hcnt; lia|].
    split; [intros _; split; [symmetry; exact He | symmetry; exact Hc]|].
    intros j Hj. destruct (Nat.eq_dec j k) as [->|Hne].
    + exists s'. split; [exact Hrun'|].
      rewrite app_nth2 by lia. rewrite Hlen, Nat.sub_diag. cbn [nth].
      unfold entry. rewrite Hcnt. f_equal. lia.
    + destruct (Hnew j ltac:(lia)) as (sj & Hsj & Hnth).
      exists sj. split; [exact Hsj|].
      rewrite app_nth1 by lia. exact Hnth.
Qed.

(** C10.  Elitism.  In every generation after the first of a run the first
    [num_parents] rows and their fitness entries enter the sort exactly as
    the previous generation left them, and the best fitness after the
    generation is no worse than the best fitness before it. *)
Theorem elitism_best_fitness_never_worsens (s0 : RunState) (k : nat) :
  shaped s0 -> 1 <= k ->
  exists s s' population1 fitness1 g batches,
    steps k s0 = Ok s /\ steps (S k) s0 = Ok s' /\
    breed s = Ok (population1, fitness1, g, batches) /\
    firstn num_parents population1 = firstn num_parents (population s) /\
    firstn num_parents (Np.values fitness1)
    = firstn num_parents (Np.values (fitness s)) /\
    (nth 0 (Np.values (fitness s')) 0 <= nth 0 (Np.values (fitness s)) 0)%Q.
Proof.
  intros Hs0 Hk.
  destruct (generations_complete k s0 Hs0) as (s & Hrun & Hs & Hnd).
  specialize (Hnd Hk).
  destruct (generation_ok s Hs)
    as (offspring & fitness1 & g & batches & s' & Hb & Hstep & _ & _ & Hval
        & Hsize & _ & Hf' & _).
  rewrite Hnd in Hval. destruct Hs as ((Lp & _) & Hfit & _).
  unfold Np.size in Hfit.
  set (v := Np.values (fitness s)) in *.
  assert (Lfv : length (firstn num_parents v) = num_parents)
    by (rewrite length_firstn; lia).
  exists s, s', (firstn num_parents (population s) ++ offspring),
    fitness1, g, batches.
  split; [exact Hrun|].
  split; [rewrite generations_snoc, Hrun; exact Hstep|].
  split; [exact Hb|]. split.
  { rewrite firstn_app, firstn_firstn, Nat.min_id, length_firstn.
    replace (num_parents - Nat.min num_parents (length (population s)))
      with 0 by lia.
    cbn [firstn]. apply app_nil_r. }
  split.
  { rewrite Hval, firstn_app, firstn_firstn, Nat.min_id, Lfv, Nat.sub_diag.
    cbn [firstn]. apply app_nil_r. }
  pose proof (ranked_values fitness1) as (Hsorted & Hperm & _).
  rewrite <- Hf' in Hsorted, Hperm.
  apply sorted_head_least; [exact Hsorted|].
  apply (Permutation_in _ (Permutation_sym Hperm)).
  rewrite Hval. apply in_or_app. left.
  assert (E0 : nth 0 (firstn num_parents v) 0%Q = nth 0 v 0%Q).
  { rewrite nth_firstn.
    destruct (0 <? num_parents) eqn:E; [reflexivity|].
    apply Nat.ltb_ge in E. lia. }
  change (In (nth 0 v 0%Q) (firstn num_parents v)).
  rewrite <- E0. apply nth_In. lia.
Qed.

End EngineFacts.

(* ===================================================================== *)
(** ** crossover *)
(* ===================================================================== *)

Lemma map_seq_nth {A : Type} (f : nat -> A) (d : A) (n k : nat) :
  k < n -> nth k (map f (seq 0 n)) d = f k.
Proof.
  intros H. rewrite (nth_indep _ d (f 0))
    by (rewrite length_map, length_seq; exact H).
  rewrite map_nth, seq_nth by exact H. reflexivity.
Qed.

(** X1.  Below 512 parameters the cut falls at [floor(num_params/2)]:
    [num_solutions - num_parents] offspring, offspring [k] carrying genes
    [[0, floor(num_params/2))] of parent [k mod num_parents] and the
    remaining genes of parent [(k+1) mod num_parents]; the result is the
    same whatever the fresh array held, so repeated calls agree. *)
Lemma crossover_genes_below_512 (parents : matrix)
      (num_solutions num_parents num_params : nat) :
  shape num_parents num_params parents ->
  1 <= num_parents <= num_solutions ->
  num_params < 512 ->
  exists offspring,
    (forall uninit,
        crossover uninit parents num_solutions num_parents num_params
        = Ok offspring) /\
    length offspring = num_solutions - num_parents /\
    forall k, k < num_solutions - num_parents ->
      Np.getslice (nth k offspring []) 0 (num_params / 2)
      = Np.getslice (nth (k mod num_parents) parents []) 0 (num_params / 2)
      /\
      Np.getslice (nth k offspring []) (num_params / 2) num_params
      = Np.getslice (nth ((k + 1) mod num_parents) parents [])
                    (num_params / 2) num_params.
Proof.
  intros Hs Hp Hn.
  exists (map (offspring_genes parents num_parents (num_params / 2))
              (seq 0 (num_solutions - num_parents))).
  split; [|split].
  - intros uninit. rewrite (crossover_closed_form _ _ _ _ _ Hs Hp).
    rewrite uint8_half_small by exact Hn. reflexivity.
  - rewrite length_map, length_seq. reflexivity.
  - intros k Hk. rewrite map_seq_nth by exact Hk.
    assert (H1 : k mod num_parents < num_parents)
      by (apply Nat.mod_upper_bound; lia).
    assert (H2 : (k + 1) mod num_parents < num_parents)
      by (apply Nat.mod_upper_bound; lia).
    destruct (shaped_row _ _ _ _ Hs H1) as [_ L1].
    destruct (shaped_row _ _ _ _ Hs H2) as [_ L2].
    unfold offspring_genes.
    set (p1 := nth (k mod num_parents) parents []) in *.
    set (p2 := nth ((k + 1) mod num_parents) parents []) in *.
    set (cp := num_params / 2).
    assert (Hcp : cp <= num_params)
      by (apply Nat.Div0.div_le_upper_bound; lia).
    assert (Lf : length (firstn cp p1) = cp)
      by (rewrite length_firstn; lia).
    unfold Np.getslice. rewrite !Nat.sub_0_r. cbn [skipn]. split.
    + rewrite firstn_app, Lf, Nat.sub_diag, firstn_firstn, Nat.min_id.
      cbn [firstn]. apply app_nil_r.
    + rewrite skipn_app, Lf, Nat.sub_diag.
      rewrite (skipn_all2 (n := cp)) by lia. reflexivity.
Qed.

(** C1.  The crossover point is [np.uint8(num_params/2)], and eight bits
    hold it only below 512 parameters.  With 512 parameters and two
    parents the point wraps to 0: offspring 0 is parent 1 from its first
    gene on, and its genes [[0, 256)] are not those of parent 0. *)
Theorem crossover_point_wraps_at_512 :
  let parents := [repeat 1%Q 512; repeat 2%Q 512] in
  Np.uint8 (512 / 2) = 0 /\
  crossover 0%Q parents 3 2 512 = Ok [repeat 2%Q 512] /\
  Np.getslice (repeat 2%Q 512) 0 (512 / 2)
  <> Np.getslice (nth (0 mod 2) parents []) 0 (512 / 2).
Proof.
  cbv zeta. split; [reflexivity|]. split; [vm_compute; reflexivity|].
  vm_compute. discriminate.
Qed.

(* ===================================================================== *)
(** ** mutation *)
(* ===================================================================== *)

Lemma replace_at {A : Type} (r1 r2 : list A) (a v : A) :
  r1 ++ v :: r2
  = firstn (length r1) (r1 ++ a :: r2)
    ++ v :: skipn (S (length r1)) (r1 ++ a :: r2).
Proof.
  rewrite firstn_app, Nat.sub_diag, firstn_all, app_nil_r.
  replace (S (length r1)) with (length r1 + 1) by lia.
  rewrite skipn_app, skipn_all2 by lia.
  replace (length r1 + 1 - length r1) with 1 by lia.
  reflexivity.
Qed.

Lemma mutation_row_draws `{RS : Np.RandomSource} (num_params : nat)
      (param_ranges : list (Q * Q)) (done todo : matrix) (r : row)
      (g : Np.rng) :
  1 <= num_params ->
  length param_ranges = num_params ->
  Forall (fun p => (fst p <= snd p)%Q) param_ranges ->
  length r = num_params ->
  exists r' g',
    mutation_row num_params param_ranges (length done)
                 (done ++ r :: todo, g)
    = Ok (done ++ r' :: todo, g') /\
    gene_redrawn num_params param_ranges r g r' g'.
Proof.
  intros Hn Hl Hf Hr. unfold mutation_row.
  destruct (num_params =? 0) eqn:E0; [apply Nat.eqb_eq in E0; lia|].
  pose proof (Np.randint_range num_params g Hn) as Hcol.
  destruct (Np.randint num_params g) as [col g1] eqn:Er. cbn [fst] in Hcol.
  destruct (split_at param_ranges col ltac:(lia))
    as (pr1 & [lo hi] & pr2 & Epr & Lpr).
  assert (Hnth : nth_error param_ranges col = Some (lo, hi)).
  { rewrite Epr, nth_error_app2 by lia.
    rewrite Lpr, Nat.sub_diag. reflexivity. }
  rewrite (getitem_nth_error _ _ _ Hnth). cbn [bind fst snd].
  assert (Hlohi : (lo <= hi)%Q).
  { rewrite Forall_forall in Hf.
    apply (Hf (lo, hi)). eapply nth_error_In; exact Hnth. }
  pose proof (Np.uniform_range lo hi g1 Hlohi) as Hv.
  destruct (Np.uniform lo hi g1) as [new_gene g2] eqn:Eu. cbn [fst] in Hv.
  rewrite getitem_app_mid. cbn [bind].
  destruct (split_at r col ltac:(lia)) as (r1 & a & r2 & Er1 & Lr).
  clear Lpr Epr. subst r col.
  rewrite setitem_app_mid. cbn [bind].
  rewrite setitem_app_mid.
  exists (r1 ++ new_gene :: r2), g2. split; [reflexivity|].
  exists (length r1), g1, lo, hi, new_gene.
  split; [exact Er|]. split; [exact Hcol|].
  split; [exact Hnth|]. split; [exact Eu|].
  split; [exact Hv|]. apply replace_at.
Qed.

Lemma mutation_loop_draws `{RS : Np.RandomSource} (num_params : nat)
      (param_ranges : list (Q * Q)) (todo done : matrix) (g : Np.rng) :
  1 <= num_params ->
  length param_ranges = num_params ->
  Forall (fun p => (fst p <= snd p)%Q) param_ranges ->
  Forall (fun r => length r = num_params) todo ->
  exists todo' g',
    for_range_from (length done) (length todo)
                   (mutation_row num_params param_ranges) (done ++ todo, g)
    = Ok (done ++ todo', g') /\
    rows_redrawn num_params param_ranges todo g todo' g'.
Proof.
  intros Hn Hl Hr. revert done g.
  induction todo as [|r todo IH]; intros done g Hf.
  - exists [], g. split; [reflexivity | constructor].
  - apply Forall_cons_iff in Hf as [Hlen Hf']. cbn [for_range_from length].
    destruct (mutation_row_draws num_params param_ranges done todo r g
                Hn Hl Hr Hlen) as (r' & g1 & -> & Hone).
    cbn [bind].
    destruct (IH (done ++ [r']) g1 Hf') as (todo' & g' & Hrun & Hall).
    rewrite length_app in Hrun. cbn [length] in Hrun.
    rewrite Nat.add_1_r, <- app_assoc in Hrun. cbn [app] in Hrun.
    rewrite Hrun. exists (r' :: todo'), g'.
    rewrite <- app_assoc. split; [reflexivity|].
    econstructor; eassumption.
Qed.

(** C9.  Every row handed to mutation comes back with exactly one cell
    replaced: the column is the one [np.random.randint(0, num_params)]
    drew for that row, below [num_params]; the new value is the one
    [np.random.uniform] drew next, inside that column's inclusive range;
    every other cell is as crossover left it.  The rows are treated in
    order, each draw from the random state the draw before it left. *)
Theorem mutation_redraws_one_gene_per_row `{RS : Np.RandomSource}
        (offspring_crossover : matrix) (num_params : nat)
        (param_ranges : list (Q * Q)) (g : Np.rng) :
  1 <= num_params ->
  length param_ranges = num_params ->
  Forall (fun p => (fst p <= snd p)%Q) param_ranges ->
  Forall (fun r => length r = num_params) offspring_crossover ->
  exists mutated g',
    mutation offspring_crossover num_params param_ranges g
    = Ok (mutated, g') /\
    rows_redrawn num_params param_ranges offspring_crossover g mutated g' /\
    Forall2 (one_gene_redrawn num_params param_ranges)
            offspring_crossover mutated.
Proof.
  intros Hn Hl Hr Hf.
  destruct (mutation_ok num_params param_ranges Hn Hl offspring_crossover g Hf)
    as (mutated & g' & Hrun & _ & Hall).
  exists mutated, g'. split; [exact Hrun|]. split; [|exact (Hall Hr)].
  destruct (mutation_loop_draws num_params param_ranges offspring_crossover
              [] g Hn Hl Hr Hf) as (mutated2 & g2 & Hrun2 & Hdraws).
  change (mutation offspring_crossover num_params param_ranges g = Ok (mutated2, g2))
    in Hrun2.
  rewrite Hrun2 in Hrun. inversion Hrun; subst. exact Hdraws.
Qed.

(* ===================================================================== *)
(** ** solver *)
(* ===================================================================== *)

(** C2.  On a fresh run the scheduler evaluates every row: each row is
    sent to the pool once and every fitness entry becomes the fitness of
    its row, as the dtype of the vector keeps it.  Otherwise it evaluates
    the rows from [num_parents] on and nothing else: those entries become
    the fitness of their rows, and the first [num_parents] entries come
    back as they went in. *)
Theorem solver_evaluates_required_rows (fitnessFun : row -> Q)
        (fitness : Np.ndarray) (population : matrix) (no_data : bool)
        (num_solutions num_parents num_cpu : nat) :
  1 <= num_cpu -> num_parents <= num_solutions ->
  length population = num_solutions ->
  Np.size fitness = num_solutions ->
  (forall r, In r population -> storable fitness (fitnessFun r)) ->
  exists fitness' batches,
    solver fitnessFun fitness population no_data
           num_solutions num_parents num_cpu = Ok (fitness', batches) /\
    (no_data = true ->
     Permutation (concat batches) (seq 0 num_solutions) /\
     Np.values fitness'
     = map (fun r => stored_as fitness (fitnessFun r)) population) /\
    (no_data = false ->
     Permutation (concat batches)
                 (seq num_parents (num_solutions - num_parents)) /\
     firstn num_parents (Np.values fitness')
     = firstn num_parents (Np.values fitness) /\
     skipn num_parents (Np.values fitness')
     = map (fun r => stored_as fitness (fitnessFun r))
           (skipn num_parents population)).
Proof.
  intros Hcpu Hnp Hpop Hfit Hstorable.
  destruct (solver_closed_form fitnessFun fitness population no_data
              num_solutions num_parents num_cpu Hcpu Hnp Hpop Hfit)
    as (fitness' & batches & Hrun & Hperm & Hval & _).
  exists fitness', batches. split; [exact Hrun|].
  unfold required_rows in Hperm. split.
  - intros ->. split; [exact Hperm|]. exact Hval.
  - intros ->. split; [exact Hperm|].
    unfold Np.size in Hfit.
    assert (Lk : length (firstn num_parents (Np.values fitness))
                 = num_parents)
      by (rewrite length_firstn; lia).
    rewrite Hval. split.
    + rewrite firstn_app, firstn_firstn, Nat.min_id, Lk, Nat.sub_diag.
      cbn [firstn]. apply app_nil_r.
    + rewrite skipn_app, Lk, Nat.sub_diag. cbn [skipn].
      rewrite skipn_all2 by lia. reflexivity.
Qed.

(** What the scheduler stores at an evaluated row: the fitness of that
    row, cast to the dtype of the fitness vector it was handed. *)
Lemma solver_stores_cast_fitness (fitnessFun : row -> Q)
      (fitness : Np.ndarray) (population : matrix) (no_data : bool)
      (num_solutions num_parents num_cpu : nat) :
  1 <= num_cpu -> num_parents <= num_solutions ->
  length population = num_solutions ->
  Np.size fitness = num_solutions ->
  exists fitness' batches,
    solver fitnessFun fitness population no_data
           num_solutions num_parents num_cpu = Ok (fitness', batches) /\
    forall i, In i (concat batches) ->
      nth i (Np.values fitness') 0%Q
      = stored_as fitness (fitnessFun (nth i population [])).
Proof.
  intros Hcpu Hnp Hpop Hfit.
  destruct (solver_closed_form fitnessFun fitness population no_data
              num_solutions num_parents num_cpu Hcpu Hnp Hpop Hfit)
    as (fitness' & batches & Hrun & Hperm & Hval & _).
  exists fitness', batches. split; [exact Hrun|].
  intros i Hi. apply (Permutation_in _ Hperm) in Hi.
  set (kept := if no_data then 0 else num_parents) in *.
  assert (Hik : kept <= i < num_solutions).
  { unfold required_rows, kept in *.
    destruct no_data; apply in_seq in Hi; lia. }
  unfold Np.size in Hfit. rewrite Hval.
  rewrite app_nth2; rewrite length_firstn; [|lia].
  replace (Nat.min kept (length (Np.values fitness))) with kept by lia.
  set (g := fun r => stored_as fitness (fitnessFun r)).
  rewrite (nth_indep _ 0%Q (g []))
    by (rewrite length_map, length_skipn; lia).
  rewrite (map_nth g), nth_skipn.
  replace (kept + (i - kept)) with i by lia. reflexivity.
Qed.

(** X24.  On a resumed run the vector is [float64] and what is stored
    for every evaluated row is the fitness of that row itself. *)
Lemma resumed_run_fitness_is_exact (fitnessFun : row -> Q)
      (fitness : list Q) (population : matrix) (no_data : bool)
      (num_solutions num_parents num_cpu : nat) :
  1 <= num_cpu -> num_parents <= num_solutions ->
  length population = num_solutions ->
  length fitness = num_solutions ->
  exists fitness' batches,
    solver fitnessFun (Np.FloatArr fitness) population no_data
           num_solutions num_parents num_cpu = Ok (fitness', batches) /\
    forall i, In i (concat batches) ->
      nth i (Np.values fitness') 0%Q = fitnessFun (nth i population []).
Proof.
  intros Hcpu Hnp Hpop Hfit.
  exact (solver_stores_cast_fitness fitnessFun (Np.FloatArr fitness)
           population no_data num_solutions num_parents num_cpu
           Hcpu Hnp Hpop Hfit).
Qed.

(** C3.  The fitness vector of a fresh run is [np.array([0, ...])], an
    [int64] array, and the scheduler stores into it: row 1 has fitness
    3/2 and the entry written at index 1 is 1.  The index is the right
    one, the value is the fitness cut to its integer part. *)
Theorem fresh_run_fitness_is_truncated :
  let fitnessFun := fun r : row => (nth 0 r 0 / 2)%Q in
  let population := [[1]; [3]; [5]]%Q in
  solver fitnessFun (Np.IntArr (repeat 0%Z 3)) population true 3 1 2
  = Ok (Np.IntArr [0; 1; 2]%Z, [[1; 2]; [0]]) /\
  (fitnessFun (nth 1 population []) == 3 # 2)%Q /\
  ~ (nth 1 (Np.values (Np.IntArr [0; 1; 2]%Z)) 0
     == fitnessFun (nth 1 population []))%Q.
Proof.
  cbv zeta. split; [vm_compute; reflexivity|].
  split; [reflexivity|]. vm_compute. discriminate.
Qed.

(* ===================================================================== *)
(** ** The sort by fitness *)
(* ===================================================================== *)

Lemma position_In (idx : list nat) (i : nat) :
  In i idx ->
  exists p, position i idx = Some p /\ p < length idx /\ nth p idx 0 = i.
Proof.
  induction idx as [|j idx IH]; intros Hin; [contradiction|].
  cbn [position]. destruct (i =? j) eqn:E.
  - apply Nat.eqb_eq in E. subst. exists 0.
    cbn. repeat split; lia.
  - apply Nat.eqb_neq in E. destruct Hin as [->|Hin]; [congruence|].
    destruct (IH Hin) as (p & Hp & Hlt & Hnth). exists (S p).
    rewrite Hp. cbn. repeat split; [lia | exact Hnth].
Qed.

Lemma sorted_nth_le (l : list Q) (p q : nat) :
  StronglySorted Qle l -> p <= q < length l ->
  (nth p l 0 <= nth q l 0)%Q.
Proof.
  intros Hs. revert p q. induction Hs as [|a l Hs IH Hf]; intros p q Hpq.
  - cbn in Hpq. lia.
  - destruct p as [|p], q as [|q]; cbn [nth length] in *.
    + apply Qle_refl.
    + rewrite Forall_forall in Hf. apply Hf, nth_In. lia.
    + lia.
    + apply IH. lia.
Qed.

Lemma take_nth (keys : list Q) (idx : list nat) (p : nat) :
  p < length idx ->
  nth p (Np.take 0%Q keys idx) 0%Q = nth (nth p idx 0) keys 0%Q.
Proof.
  intros Hp. unfold Np.take.
  rewrite (nth_indep _ 0%Q (nth 0 keys 0%Q)) by (rewrite length_map; exact Hp).
  apply (map_nth (fun i => nth i keys 0%Q)).
Qed.

(** What numpy promises of the default argsort, read on the index array:
    of two keys that differ, the index of the smaller one comes first. *)
Lemma argsort_orders_distinct_keys `{AS : Np.Argsort}
      (keys : list Q) (i j : nat) :
  i < length keys -> j < length keys ->
  (nth i keys 0 < nth j keys 0)%Q ->
  exists pi pj,
    pi < pj /\ pj < length keys /\
    nth_error (Np.argsort keys) pi = Some i /\
    nth_error (Np.argsort keys) pj = Some j.
Proof.
  intros Hi Hj Hlt.
  destruct (position_In (Np.argsort keys) i) as (pi & _ & Li & Ni);
    [apply argsort_in_range; exact Hi|].
  destruct (position_In (Np.argsort keys) j) as (pj & _ & Lj & Nj);
    [apply argsort_in_range; exact Hj|].
  exists pi, pj.
  assert (Hord : pi < pj).
  { destruct (Nat.lt_ge_cases pi pj) as [H|H]; [exact H|]. exfalso.
    pose proof (sorted_nth_le _ pj pi (Np.argsort_sorted keys)) as Hle.
    rewrite take_length in Hle. specialize (Hle ltac:(lia)).
    rewrite !take_nth, Ni, Nj in Hle by assumption.
    exact (Qlt_not_le _ _ Hlt Hle). }
  split; [exact Hord|]. split; [rewrite <- (argsort_length keys); exact Lj|].
  split.
  - rewrite (nth_error_nth' _ 0 Li), Ni. reflexivity.
  - rewrite (nth_error_nth' _ 0 Lj), Nj. reflexivity.
Qed.

Lemma take_nth_error {A : Type} (d : A) (l : list A) (idx : list nat)
      (p i : nat) :
  nth_error idx p = Some i -> i < length l ->
  nth_error (Np.take d l idx) p = nth_error l i.
Proof.
  intros Hp Hi. unfold Np.take.
  rewrite nth_error_map, Hp. cbn [option_map].
  symmetry. apply nth_error_nth'. exact Hi.
Qed.

(** C6, as the code has it.  The generation re-ranks population and
    fitness through numpy's default argsort: of two rows whose fitness
    differs, the one of smaller fitness stands, with its fitness, before
    the other after the generation.  Rows of equal fitness are not
    covered: nothing fixes their order. *)
Theorem ranking_orders_distinct_fitness
        `{RS : Np.RandomSource} `{AS : Np.Argsort}
        (fitnessFun : row -> Q) (output_file : string)
        (num_params num_solutions num_parents : nat)
        (param_ranges : list (Q * Q)) (num_cpu : nat) (uninit : Q)
        (s : RunState) :
  1 <= num_params -> 1 <= num_parents <= num_solutions ->
  length param_ranges = num_params -> 1 <= num_cpu ->
  well_shaped num_params num_solutions s ->
  exists population1 fitness1 g batches s',
    breed_and_evaluate fitnessFun num_params num_solutions num_parents
                       param_ranges num_cpu uninit s
    = Ok (population1, fitness1, g, batches) /\
    generation fitnessFun output_file num_params num_solutions num_parents
               param_ranges num_cpu uninit s = Ok s' /\
    forall i j, i < num_solutions -> j < num_solutions ->
      (nth i (Np.values fitness1) 0 < nth j (Np.values fitness1) 0)%Q ->
      exists pi pj,
        pi < pj /\ pj < num_solutions /\
        nth_error (population s') pi = nth_error population1 i /\
        nth_error (Np.values (fitness s')) pi
        = nth_error (Np.values fitness1) i /\
        nth_error (population s') pj = nth_error population1 j /\
        nth_error (Np.values (fitness s')) pj
        = nth_error (Np.values fitness1) j.
Proof.
  intros Hn Hp Hl Hcpu Hs.
  destruct (generation_ok fitnessFun output_file num_params num_solutions
              num_parents param_ranges num_cpu uninit Hn Hp Hl Hcpu s Hs)
    as (offspring & fitness1 & g & batches & s' & Hb & Hstep & Hp1 & _ & _
        & Hsize & Hpop' & Hfit' & _).
  exists (firstn num_parents (population s) ++ offspring), fitness1, g,
         batches, s'.
  split; [exact Hb|]. split; [exact Hstep|].
  intros i j Hi Hj Hlt. unfold Np.size in Hsize.
  destruct (argsort_orders_distinct_keys (Np.values fitness1) i j)
    as (pi & pj & Hord & Hpj & Ni & Nj); [lia | lia | exact Hlt |].
  destruct Hp1 as [Lp1 _]. unfold matrix, row in *.
  exists pi, pj. split; [exact Hord|]. split; [lia|].
  rewrite Hpop', Hfit', values_atake.
  rewrite !(take_nth_error _ _ _ _ _ Ni), !(take_nth_error _ _ _ _ _ Nj)
    by lia.
  repeat split.
Qed.

(** A resumed state in which the two parents have the same fitness. *)
Definition tied_state : @RunState counter_random :=
  {| population := [[1; 1]; [9; 9]; [0; 0]; [10; 10]]%Q;
     fitness := Np.FloatArr [32; 32; 50; 50]%Q;
     record := [[1; 1; 1; 32]]%Q;
     recorded_generations := 1;
     no_data := false;
     gen := 0;
     wb := [];
     evals := [] |}.

Lemma tied_state_shaped : well_shaped 2 4 tied_state.
Proof.
  split; [split; [reflexivity | repeat constructor]|].
  split; [reflexivity | intros _; repeat constructor].
Defined.

(** C6 as stated does not hold.  With an index sort that meets everything
    numpy promises of the default argsort, a generation swaps two rows of
    equal fitness: the parents (1, 1) and (9, 9), both of fitness 32,
    enter the sort in this order and leave it in the other. *)
Lemma reranking_need_not_be_stable :
  ~ (forall (AS : Np.Argsort) (s s' : @RunState counter_random)
            (population1 : matrix) (fitness1 : Np.ndarray) (g : Np.rng)
            (batches : list (list nat)),
        well_shaped 2 4 s ->
        breed_and_evaluate scenario_fitness 2 4 2 scenario_ranges 2 0%Q s
        = Ok (population1, fitness1, g, batches) ->
        generation scenario_fitness "geneticAlgoOutput.xlsx" 2 4 2
                   scenario_ranges 2 0%Q s = Ok s' ->
        keeps_ties_in_order (Np.values fitness1) population1
                            (population s')).
Proof.
  intros H.
  destruct (breed_and_evaluate scenario_fitness 2 4 2 scenario_ranges 2 0%Q
              tied_state) as [[[[p1 f1] g] b]|e] eqn:Eb;
    [|vm_compute in Eb; discriminate Eb].
  destruct (generation (AS := ties_reversed_argsort) scenario_fitness
              "geneticAlgoOutput.xlsx" 2 4 2 scenario_ranges 2 0%Q tied_state)
    as [s'|e] eqn:Eg; [|vm_compute in Eg; discriminate Eg].
  specialize (H ties_reversed_argsort tied_state s' p1 f1 g b
                tied_state_shaped Eb Eg 0 1).
  vm_compute in Eb. inversion Eb; subst p1 f1 g b. clear Eb.
  vm_compute in Eg. inversion Eg; subst s'. clear Eg.
  destruct H as (pi & pj & Hlt & Hi & Hj); [cbn; lia | reflexivity |].
  cbn [population nth_error] in Hi, Hj.
  destruct pi as [|[|[|[|pi]]]]; cbn [nth_error] in Hi;
    try discriminate Hi; try (destruct pi; discriminate Hi).
  destruct pj as [|[|[|[|pj]]]]; cbn [nth_error] in Hj;
    try discriminate Hj; try (destruct pj; discriminate Hj).
  lia.
Qed.

(* ===================================================================== *)
(** ** Start-up *)
(* ===================================================================== *)

Lemma for_range_from_invariant {St : Type} (P : St -> Prop)
      (body : nat -> St -> result St) (n start : nat) (s : St) :
  (forall k st, start <= k < start + n -> P st ->
                exists st', body k st = Ok st' /\ P st') ->
  P s ->
  exists s', for_range_from start n body s = Ok s' /\ P s'.
Proof.
  revert start s. induction n as [|n IH]; intros start s Hbody Hs.
  - exists s. split; [reflexivity | exact Hs].
  - cbn [for_range_from].
    destruct (Hbody start s ltac:(lia) Hs) as (s1 & -> & Hs1). cbn [bind].
    apply IH; [|exact Hs1].
    intros k st Hk. apply Hbody. lia.
Qed.

Lemma uniform_n_length `{RS : Np.RandomSource} (lo hi : Q) (n : nat)
      (g : Np.rng) :
  length (fst (Np.uniform_n lo hi n g)) = n.
Proof.
  revert g. induction n as [|n IH]; intros g; cbn [Np.uniform_n].
  - reflexivity.
  - destruct (Np.uniform lo hi g) as [x g1].
    specialize (IH g1). destruct (Np.uniform_n lo hi n g1) as [xs g2].
    cbn in *. lia.
Qed.

Lemma setcol_zip_shape (cols col : nat) (m : matrix) (vals : list Q) :
  col < cols ->
  Forall (fun r => length r = cols) m -> length vals = length m ->
  exists m', Np.setcol_zip m col vals = Ok m' /\
             shape (length m) cols m'.
Proof.
  intros Hcol. revert vals.
  induction m as [|r m IH]; intros [|v vals] Hf Hl; cbn in Hl;
    try discriminate.
  - exists []. split; [reflexivity|]. split; [reflexivity | constructor].
  - apply Forall_cons_iff in Hf as [Hr Hf].
    destruct (split_at r col ltac:(lia)) as (r1 & a & r2 & -> & L1).
    cbn [Np.setcol_zip]. rewrite (setitem_at _ _ _ _ _ L1). cbn [bind].
    destruct (IH vals Hf ltac:(lia)) as (m' & -> & Lm' & Fm').
    cbn [bind]. eexists. split; [reflexivity|]. split.
    + cbn [length]. lia.
    + constructor; [|exact Fm'].
      rewrite <- Hr, !length_app. reflexivity.
Qed.

Section StartupFacts.

Context `{RS : Np.RandomSource}.

Variables num_params num_solutions : nat.
Variable param_ranges : list (Q * Q).
Variable uninit : Q.

Local Notation "'start'" :=
  (startup num_params num_solutions param_ranges uninit).

Lemma random_population_shape (g : Np.rng) :
  length param_ranges = num_params ->
  exists population g',
    random_population num_params num_solutions param_ranges uninit g
    = Ok (population, g') /\
    shape num_solutions num_params population.
Proof.
  intros Hlen. unfold random_population, for_range.
  destruct (for_range_from_invariant
              (fun st : matrix * Np.rng =>
                 shape num_solutions num_params (fst st))
              (random_column num_solutions param_ranges)
              num_params 0
              (Np.empty uninit num_solutions num_params, g))
    as ([population g'] & Hrun & Hshape).
  - intros col [m g0] Hcol [Lm Fm]. cbn [fst] in *.
    unfold random_column.
    destruct (split_at param_ranges col ltac:(lia))
      as (pr1 & [lo hi] & pr2 & -> & <-).
    rewrite getitem_app_mid. cbn [bind fst snd].
    pose proof (uniform_n_length lo hi num_solutions g0) as Lu.
    destruct (Np.uniform_n lo hi num_solutions g0) as [vals g1].
    cbn [fst] in Lu. unfold Np.setcol.
    rewrite broadcast_same by lia. cbn [bind].
    destruct (setcol_zip_shape num_params (length pr1) m vals)
      as (m' & -> & Hm'); [rewrite length_app in Hlen; cbn in Hlen; lia
                          | exact Fm | lia |].
    cbn [bind]. eexists. split; [reflexivity|].
    cbn [fst]. rewrite Lm in Hm'. exact Hm'.
  - cbn [fst]. unfold Np.empty. split; [apply repeat_length|].
    apply Forall_forall. intros r Hr. apply repeat_spec in Hr. subst.
    apply repeat_length.
  - exists population, g'. split; [exact Hrun | exact Hshape].
Qed.

(** The handler never looks at what was raised. *)
Lemma startup_ignores_exception (e1 e2 : exn) (g : Np.rng) :
  start (Raise e1) g = start (Raise e2) g.
Proof. reflexivity. Qed.

(** A fresh start with ranges of the right length: a random population of
    the announced shape, an [int64] vector of zeros for the fitness, and
    the formatted, unsaved workbook. *)
Lemma fresh_start_shaped (e : exn) (g : Np.rng) :
  length param_ranges = num_params ->
  exists s,
    start (Raise e) g = Ok (Finished s) /\
    well_shaped num_params num_solutions s /\
    no_data s = true /\
    fitness s = Np.IntArr (repeat 0%Z num_solutions) /\
    wb s = format_workbook num_params.
Proof.
  intros Hlen. unfold startup.
  rewrite Hlen, Nat.eqb_refl. cbn [negb].
  destruct (random_population_shape g Hlen) as (population & g' & -> & Hs).
  cbn [bind fst snd]. eexists. split; [reflexivity|]. cbn.
  repeat split; try apply Hs.
  - unfold Np.size. cbn. rewrite length_map. apply repeat_length.
  - discriminate.
Qed.

(** A resumed start takes the tables as read, with a [float64] vector. *)
Lemma resumed_start_shaped (ck : checkpoint) (g : Np.rng) :
  shape num_solutions num_params (ck_population ck) ->
  length (ck_fitness ck) = num_solutions ->
  Forall (fun r => length r = num_params + 2) (ck_record ck) ->
  exists s,
    start (Ok ck) g = Ok (Finished s) /\
    well_shaped num_params num_solutions s /\
    no_data s = false /\
    recorded_entries s = ck_record ck /\
    recorded_count s = ck_recorded_generations ck.
Proof.
  intros Hp Hf Hr. eexists. split; [reflexivity|]. cbn.
  repeat split; try apply Hp; auto.
Qed.

End StartupFacts.

(** C7, as the code has it.  When the workbook cannot be loaded and
    [param_ranges] has not [num_params] entries, the call prints its
    message and returns: nothing is raised, no population is drawn, no
    generation runs, and the workbook it has just created and formatted is
    never saved. *)
Theorem length_mismatch_returns_before_any_save
        `{RS : Np.RandomSource} `{AS : Np.Argsort}
        (fitnessFun : row -> Q) (output_file : string)
        (num_generations num_params num_solutions num_parents : nat)
        (param_ranges : list (Q * Q)) (num_cpu : nat) (uninit : Q)
        (e : exn) (g : Np.rng) :
  length param_ranges <> num_params ->
  geneticAlgoSolve fitnessFun output_file num_generations num_params
                   num_solutions num_parents param_ranges num_cpu uninit
                   (Raise e) g
  = Ok (Returned (format_workbook num_params)) /\
  forall path, ~ In (Save path) (format_workbook num_params).
Proof.
  intros Hlen. split.
  - unfold geneticAlgoSolve, startup.
    apply Nat.eqb_neq in Hlen. rewrite Hlen. reflexivity.
  - intros path Hin. unfold format_workbook in Hin. cbn [In] in Hin.
    repeat (destruct Hin as [Hin|Hin]; [discriminate|]). exact Hin.
Qed.

(** C7 as stated does not hold.  With no workbook to load and one range
    for two parameters the call ends normally: there is no exception for
    the caller to catch. *)
Lemma length_mismatch_raises_nothing :
  ~ exists e,
      geneticAlgoSolve (RS := counter_random) (AS := stable_argsort)
                       scenario_fitness "geneticAlgoOutput.xlsx"
                       10 2 4 2 [(0, 10)%Q] 4 0%Q
                       (Raise FileNotFoundError) 0
      = Raise e.
Proof. intros [e H]. vm_compute in H. discriminate. Qed.

(** C8.  The handler is a bare [except:].  A workbook that is there but
    lacks a sheet makes the [try] block raise [KeyError]; the run then
    takes the very path of a missing file: it draws a fresh random
    population, runs, and saves under the name of the existing file. *)
Theorem corrupt_checkpoint_takes_bootstrap_path :
  let run := geneticAlgoSolve (RS := counter_random) (AS := stable_argsort)
                              (fun r => nth 0 r 0%Q) "geneticAlgoOutput.xlsx"
                              1 1 3 1 [(0, 10)%Q] 4 0%Q in
  run (Raise KeyError) 0 = run (Raise FileNotFoundError) 0 /\
  exists s,
    run (Raise KeyError) 0 = Ok (Finished s) /\
    no_data s = false /\
    recorded_generations s = 1 /\
    population s = [[0]; [0]; [10 # 2]]%Q /\
    In (Save (Some "geneticAlgoOutput.xlsx"%string)) (wb s).
Proof.
  cbv zeta. split; [reflexivity|].
  eexists. split; [vm_compute; reflexivity|].
  repeat (split; [reflexivity|]). cbn. tauto.
Qed.

(* ===================================================================== *)
(** ** The statements at concrete inputs *)
(* ===================================================================== *)

Definition scenario_state : @RunState counter_random :=
  {| population := [[0; 0]; [10; 10]; [1; 1]; [9; 9]]%Q;
     fitness := Np.IntArr [0; 0; 0; 0]%Z;
     record := Np.empty 0%Q 1 4;
     recorded_generations := 0;
     no_data := true;
     gen := 0;
     wb := format_workbook 2;
     evals := [] |}.

Lemma scenario_state_shaped : well_shaped 2 4 scenario_state.
Proof.
  split; [split; [reflexivity | repeat constructor]|].
  split; [reflexivity | discriminate].
Defined.

Lemma solver_evaluates_required_rows_witness :
  (exists fitness' batches,
      solver scenario_fitness (Np.IntArr [0; 0; 0; 0]%Z)
             [[1; 1]; [9; 9]; [1; 9]; [9; 0]]%Q true 4 2 3
      = Ok (fitness', batches) /\
      (true = true ->
       Permutation (concat batches) (seq 0 4) /\
       Np.values fitness'
       = map (fun r => stored_as (Np.IntArr [0; 0; 0; 0]%Z)
                                 (scenario_fitness r))
             [[1; 1]; [9; 9]; [1; 9]; [9; 0]]%Q) /\
      (true = false ->
       Permutation (concat batches) (seq 2 (4 - 2)) /\
       firstn 2 (Np.values fitness')
       = firstn 2 (Np.values (Np.IntArr [0; 0; 0; 0]%Z)) /\
       skipn 2 (Np.values fitness')
       = map (fun r => stored_as (Np.IntArr [0; 0; 0; 0]%Z)
                                 (scenario_fitness r))
             (skipn 2 [[1; 1]; [9; 9]; [1; 9]; [9; 0]]%Q))) /\
  (exists fitness' batches,
      solver scenario_fitness (Np.FloatArr [32; 32; 0; 0]%Q)
             [[1; 1]; [9; 9]; [1; 9]; [9; 0]]%Q false 4 2 3
      = Ok (fitness', batches) /\
      (false = true ->
       Permutation (concat batches) (seq 0 4) /\
       Np.values fitness'
       = map (fun r => stored_as (Np.FloatArr [32; 32; 0; 0]%Q)
                                 (scenario_fitness r))
             [[1; 1]; [9; 9]; [1; 9]; [9; 0]]%Q) /\
      (false = false ->
       Permutation (concat batches) (seq 2 (4 - 2)) /\
       firstn 2 (Np.values fitness')
       = firstn 2 (Np.values (Np.FloatArr [32; 32; 0; 0]%Q)) /\
       skipn 2 (Np.values fitness')
       = map (fun r => stored_as (Np.FloatArr [32; 32; 0; 0]%Q)
                                 (scenario_fitness r))
             (skipn 2 [[1; 1]; [9; 9]; [1; 9]; [9; 0]]%Q))).
Proof.
  split.
  - apply (solver_evaluates_required_rows scenario_fitness
             (Np.IntArr [0; 0; 0; 0]%Z)
             [[1; 1]; [9; 9]; [1; 9]; [9; 0]]%Q true 4 2 3);
      [lia | lia | reflexivity | reflexivity |].
    intros r [<-|[<-|[<-|[<-|[]]]]]; vm_compute; split; discriminate.
  - apply (solver_evaluates_required_rows scenario_fitness
             (Np.FloatArr [32; 32; 0; 0]%Q)
             [[1; 1]; [9; 9]; [1; 9]; [9; 0]]%Q false 4 2 3);
      [lia | lia | reflexivity | reflexivity |].
    intros r _. exact I.
Defined.

Lemma mutation_redraws_one_gene_per_row_witness :
  exists mutated g',
    mutation (RS := counter_random) [[1; 1]; [9; 9]]%Q 2 scenario_ranges 0
    = Ok (mutated, g') /\
    rows_redrawn (RS := counter_random) 2 scenario_ranges
                 [[1; 1]; [9; 9]]%Q 0 mutated g' /\
    Forall2 (one_gene_redrawn 2 scenario_ranges) [[1; 1]; [9; 9]]%Q mutated.
Proof.
  apply (mutation_redraws_one_gene_per_row (RS := counter_random)
           [[1; 1]; [9; 9]]%Q 2 scenario_ranges 0).
  - lia.
  - reflexivity.
  - repeat constructor; cbn; unfold Qle; cbn; lia.
  - repeat constructor.
Defined.

Lemma generation_leaves_population_ranked_witness :
  exists s s' population1 fitness1 g batches,
    generations (AS := stable_argsort) scenario_fitness
                "geneticAlgoOutput.xlsx" 2 4 2 scenario_ranges 2 0%Q
                1 scenario_state = Ok s /\
    generations (AS := stable_argsort) scenario_fitness
                "geneticAlgoOutput.xlsx" 2 4 2 scenario_ranges 2 0%Q
                2 scenario_state = Ok s' /\
    breed_and_evaluate scenario_fitness 2 4 2 scenario_ranges 2 0%Q s
    = Ok (population1, fitness1, g, batches) /\
    Permutation (Np.argsort (Np.values fitness1)) (seq 0 4) /\
    population s' = Np.take [] population1 (Np.argsort (Np.values fitness1)) /\
    fitness s' = Np.atake fitness1 (Np.argsort (Np.values fitness1)) /\
    StronglySorted Qle (Np.values (fitness s')) /\
    (forall v, In v (Np.values (fitness s')) ->
               (nth 0 (Np.values (fitness s')) 0 <= v)%Q).
Proof.
  apply (generation_leaves_population_ranked (AS := stable_argsort)
           scenario_fitness "geneticAlgoOutput.xlsx" 2 4 2 scenario_ranges
           2 0%Q);
    [lia | lia | reflexivity | lia | exact scenario_state_shaped].
Defined.

Lemma record_grows_one_entry_per_generation_witness :
  exists s new_entries,
    generations (AS := stable_argsort) scenario_fitness
                "geneticAlgoOutput.xlsx" 2 4 2 scenario_ranges 2 0%Q
                3 scenario_state = Ok s /\
    well_shaped 2 4 s /\
    recorded_entries s = recorded_entries scenario_state ++ new_entries /\
    length new_entries = 3 /\
    length (recorded_entries s)
    = length (recorded_entries scenario_state) + 3 /\
    recorded_count s = recorded_count scenario_state + 3 /\
    (1 <= 3 -> record s = recorded_entries s /\
               recorded_generations s = recorded_count s) /\
    (forall j, j < 3 ->
       exists sj,
         generations (AS := stable_argsort) scenario_fitness
                     "geneticAlgoOutput.xlsx" 2 4 2 scenario_ranges 2 0%Q
                     (S j) scenario_state = Ok sj /\
         nth j new_entries []
         = record_entry (recorded_count scenario_state + S j)
                        (nth 0 (population sj) [])
                        (nth 0 (Np.values (fitness sj)) 0%Q)).
Proof.
  apply (record_grows_one_entry_per_generation (AS := stable_argsort)
           scenario_fitness "geneticAlgoOutput.xlsx" 2 4 2 scenario_ranges
           2 0%Q);
    [lia | lia | reflexivity | lia | exact scenario_state_shaped].
Defined.

Lemma elitism_best_fitness_never_worsens_witness :
  exists s s' population1 fitness1 g batches,
    generations (AS := stable_argsort) scenario_fitness
                "geneticAlgoOutput.xlsx" 2 4 2 scenario_ranges 2 0%Q
                1 scenario_state = Ok s /\
    generations (AS := stable_argsort) scenario_fitness
                "geneticAlgoOutput.xlsx" 2 4 2 scenario_ranges 2 0%Q
                2 scenario_state = Ok s' /\
    breed_and_evaluate scenario_fitness 2 4 2 scenario_ranges 2 0%Q s
    = Ok (population1, fitness1, g, batches) /\
    firstn 2 population1 = firstn 2 (population s) /\
    firstn 2 (Np.values fitness1) = firstn 2 (Np.values (fitness s)) /\
    (nth 0 (Np.values (fitness s')) 0 <= nth 0 (Np.values (fitness s)) 0)%Q.
Proof.
  apply (elitism_best_fitness_never_worsens (AS := stable_argsort)
           scenario_fitness "geneticAlgoOutput.xlsx" 2 4 2 scenario_ranges
           2 0%Q);
    [lia | lia | reflexivity | lia | exact scenario_state_shaped | lia].
Defined.

Lemma ranking_orders_distinct_fitness_witness :
  exists population1 fitness1 g batches s',
    breed_and_evaluate scenario_fitness 2 4 2 scenario_ranges 2 0%Q
                       tied_state
    = Ok (population1, fitness1, g, batches) /\
    generation (AS := ties_reversed_argsort) scenario_fitness
               "geneticAlgoOutput.xlsx" 2 4 2 scenario_ranges 2 0%Q
               tied_state = Ok s' /\
    forall i j, i < 4 -> j < 4 ->
      (nth i (Np.values fitness1) 0 < nth j (Np.values fitness1) 0)%Q ->
      exists pi pj,
        pi < pj /\ pj < 4 /\
        nth_error (population s') pi = nth_error population1 i /\
        nth_error (Np.values (fitness s')) pi
        = nth_error (Np.values fitness1) i /\
        nth_error (population s') pj = nth_error population1 j /\
        nth_error (Np.values (fitness s')) pj
        = nth_error (Np.values fitness1) j.
Proof.
  apply (ranking_orders_distinct_fitness (RS := counter_random)
           (AS := ties_reversed_argsort) scenario_fitness
           "geneticAlgoOutput.xlsx" 2 4 2 scenario_ranges 2 0%Q tied_state);
    [lia | lia | reflexivity | lia | exact tied_state_shaped].
Defined.

Lemma length_mismatch_returns_before_any_save_witness :
  geneticAlgoSolve (RS := counter_random) (AS := stable_argsort)
                   scenario_fitness "geneticAlgoOutput.xlsx" 10 2 4 2
                   [(0, 10)%Q] 4 0%Q (Raise FileNotFoundError) 0
  = Ok (Returned (format_workbook 2)) /\
  forall path, ~ In (Save path) (format_workbook 2).
Proof.
  apply (length_mismatch_returns_before_any_save (RS := counter_random)
           (AS := stable_argsort) scenario_fitness "geneticAlgoOutput.xlsx"
           10 2 4 2 [(0, 10)%Q] 4 0%Q FileNotFoundError 0).
  cbn. lia.
Defined.

(* ===================================================================== *)
(** ** Small runs *)
(* ===================================================================== *)

Example crossover_five_genes :
  crossover 0%Q [[1; 2; 3; 4; 5]; [6; 7; 8; 9; 10]]%Q 5 2 5
  = Ok [[1; 2; 8; 9; 10]; [6; 7; 3; 4; 5]; [1; 2; 8; 9; 10]]%Q.
Proof. reflexivity. Qed.

Example solver_two_workers_offspring_only :
  solver scenario_fitness (Np.FloatArr [32; 32; 0; 0; 0]%Q)
         [[1; 1]; [9; 9]; [1; 9]; [9; 1]; [5; 5]]%Q false 5 2 2
  = Ok (Np.FloatArr [32; 32; 32; 32; 0]%Q, [[3; 4]; [2]]).
Proof. vm_compute. reflexivity. Qed.

Example solver_without_workers_raises :
  solver scenario_fitness (Np.FloatArr [32; 32; 0; 0]%Q)
         [[1; 1]; [9; 9]; [1; 9]; [9; 1]]%Q false 4 2 0
  = Raise ValueError.
Proof. vm_compute. reflexivity. Qed.

Example argsort_on_the_scenario :
  argsort_stable [50; 50; 32; 32]%Q = [2; 3; 0; 1] /\
  argsort_ties_reversed [50; 50; 32; 32]%Q = [3; 2; 1; 0].
Proof. split; reflexivity. Qed.

Example mutation_on_the_scenario :
  mutation (RS := counter_random) [[1; 1]; [9; 9]]%Q 2 scenario_ranges 0
  = Ok ([[10 # 4; 1]; [30 # 4; 9]]%Q, 4).
Proof. vm_compute. reflexivity. Qed.

Example solver_fresh_run_on_the_scenario :
  solver scenario_fitness (Np.IntArr [0; 0; 0; 0]%Z)
         [[1; 1]; [9; 9]; [1; 9]; [9; 0]]%Q true 4 2 3
  = Ok (Np.IntArr [32; 32; 32; 41]%Z, [[1; 2; 3]; [0]]).
Proof. vm_compute. reflexivity. Qed.

Example uint8_of_half :
  Np.uint8 (8 / 2) = 4 /\ Np.uint8 (511 / 2) = 255 /\ Np.uint8 (512 / 2) = 0.
Proof. repeat split. Qed.

(* ===================================================================== *)
(** ** crossover: further properties *)
(* ===================================================================== *)

Lemma offspring_genes_one_parent (parents : matrix) (cp k : nat) :
  offspring_genes parents 1 cp k = nth 0 parents [].
Proof.
  unfold offspring_genes. rewrite !Nat.mod_1_r. apply firstn_skipn.
Qed.

Lemma map_const_seq {A : Type} (a : A) (start n : nat) :
  map (fun _ => a) (seq start n) = repeat a n.
Proof.
  revert start. induction n as [|n IH]; intros start; cbn; [reflexivity|].
  rewrite IH. reflexivity.
Qed.

(** X2.  Whatever the number of parameters, crossover on parents of the
    announced shape returns [num_solutions - num_parents] rows of
    [num_params] genes each, and the rows do not depend on what the fresh
    [np.empty] array held: every cell of it is overwritten. *)
Theorem crossover_fills_every_cell (parents : matrix)
        (num_solutions num_parents num_params : nat) :
  shape num_parents num_params parents ->
  1 <= num_parents <= num_solutions ->
  exists offspring,
    (forall uninit,
        crossover uninit parents num_solutions num_parents num_params
        = Ok offspring) /\
    shape (num_solutions - num_parents) num_params offspring.
Proof.
  intros Hs Hp.
  exists (map (offspring_genes parents num_parents
                               (Np.uint8 (num_params / 2)))
              (seq 0 (num_solutions - num_parents))).
  split.
  - intros uninit. apply crossover_closed_form; assumption.
  - split; [rewrite length_map, length_seq; reflexivity|].
    apply Forall_forall. intros r Hr.
    apply in_map_iff in Hr as (k & <- & _).
    apply offspring_genes_length; [exact Hs | lia | apply uint8_half_le].
Qed.

(** X3.  With a single parent every offspring is that parent, gene for
    gene: the two halves are cut from the same row. *)
Theorem crossover_single_parent_clones (uninit : Q) (parents : matrix)
        (num_solutions num_params : nat) :
  shape 1 num_params parents -> 1 <= num_solutions ->
  crossover uninit parents num_solutions 1 num_params
  = Ok (repeat (nth 0 parents []) (num_solutions - 1)).
Proof.
  intros Hs Hn.
  rewrite (crossover_closed_form uninit parents num_solutions 1 num_params Hs)
    by lia.
  f_equal. rewrite <- (map_const_seq (nth 0 parents []) 0).
  apply map_ext. intros k. apply offspring_genes_one_parent.
Qed.

(** X4.  The pairing of parents wraps around: offspring [k + num_parents]
    is offspring [k] again, so among more than [num_parents] offspring
    there are only [num_parents] different rows. *)
Theorem crossover_repeats_after_num_parents (uninit : Q) (parents : matrix)
        (num_solutions num_parents num_params k : nat) :
  shape num_parents num_params parents ->
  1 <= num_parents <= num_solutions ->
  k + num_parents < num_solutions - num_parents ->
  exists offspring,
    crossover uninit parents num_solutions num_parents num_params
    = Ok offspring /\
    nth (k + num_parents) offspring [] = nth k offspring [].
Proof.
  intros Hs Hp Hk. eexists. split.
  - apply crossover_closed_form; assumption.
  - rewrite !map_seq_nth by lia. unfold offspring_genes.
    replace (k + num_parents + 1) with (k + 1 + 1 * num_parents) by lia.
    replace (k + num_parents) with (k + 1 * num_parents) by lia.
    rewrite !Nat.Div0.mod_add. reflexivity.
Qed.

(** X5.  Without parents there is nothing to take the index modulo: as
    soon as one offspring is asked for, [k % num_parents] raises
    [ZeroDivisionError]. *)
Theorem crossover_without_parents_raises (uninit : Q) (parents : matrix)
        (num_solutions num_params : nat) :
  1 <= num_solutions ->
  crossover uninit parents num_solutions 0 num_params
  = Raise ZeroDivisionError.
Proof.
  intros Hn. unfold crossover. cbn [Nat.ltb Nat.leb].
  rewrite Nat.sub_0_r. destruct num_solutions as [|n]; [lia|].
  reflexivity.
Qed.

(** X6.  When the eight-bit crossover point is 0 (one parameter, or a
    half that is a multiple of 256) nothing is taken from the first parent
    of a pair: offspring [k] is parent [(k+1) mod num_parents] as a
    whole. *)
Theorem crossover_point_zero_copies_second_parent (uninit : Q)
        (parents : matrix) (num_solutions num_parents num_params k : nat) :
  shape num_parents num_params parents ->
  1 <= num_parents <= num_solutions ->
  Np.uint8 (num_params / 2) = 0 ->
  k < num_solutions - num_parents ->
  exists offspring,
    crossover uninit parents num_solutions num_parents num_params
    = Ok offspring /\
    nth k offspring [] = nth ((k + 1) mod num_parents) parents [].
Proof.
  intros Hs Hp Hcp Hk. eexists. split.
  - apply crossover_closed_form; assumption.
  - rewrite map_seq_nth by exact Hk. rewrite Hcp. reflexivity.
Qed.

(* ===================================================================== *)
(** ** mutation: error behaviour *)
(* ===================================================================== *)

(** X7.  With no parameters there is no column to draw:
    [np.random.randint(0, 0)] raises [ValueError] at the first row. *)
Theorem mutation_without_params_raises `{RS : Np.RandomSource}
        (offspring_crossover : matrix) (param_ranges : list (Q * Q))
        (g : Np.rng) :
  offspring_crossover <> [] ->
  mutation offspring_crossover 0 param_ranges g = Raise ValueError.
Proof.
  intros Hne. destruct offspring_crossover as [|r m]; [congruence|].
  reflexivity.
Qed.

(** X8.  mutation does not check [param_ranges]: with an empty list the
    lookup of the drawn column's range raises [IndexError] at the first
    row, whatever column was drawn. *)
Theorem mutation_without_ranges_raises `{RS : Np.RandomSource}
        (offspring_crossover : matrix) (num_params : nat) (g : Np.rng) :
  offspring_crossover <> [] -> 1 <= num_params ->
  mutation offspring_crossover num_params [] g = Raise IndexError.
Proof.
  intros Hne Hn. destruct offspring_crossover as [|r m]; [congruence|].
  unfold mutation, for_range. cbn [length for_range_from].
  unfold mutation_row at 1.
  destruct (num_params =? 0) eqn:E; [apply Nat.eqb_eq in E; lia|].
  destruct (Np.randint num_params g) as [col g1].
  destruct col; reflexivity.
Qed.

(* ===================================================================== *)
(** ** solver: batches and stored values *)
(* ===================================================================== *)

Lemma batches_for (r cpu : nat) :
  1 <= cpu -> 1 <= r ->
  (r + cpu - 1) / cpu = S ((r - Nat.min r cpu + cpu - 1) / cpu).
Proof.
  intros Hc Hr. destruct (Nat.le_gt_cases r cpu) as [Hle|Hgt].
  - rewrite Nat.min_l by exact Hle.
    replace (r - r + cpu - 1) with (cpu - 1) by lia.
    rewrite (Nat.div_small (cpu - 1)) by lia.
    symmetry. apply (Nat.div_unique _ _ 1 (r - 1)); lia.
  - rewrite Nat.min_r by lia.
    replace (r + cpu - 1) with ((r - cpu + cpu - 1) + 1 * cpu) by lia.
    rewrite Nat.div_add by lia. lia.
Qed.

Section SolverBatches.

Variable fitnessFun : row -> Q.
Variable population : matrix.
Variables num_solutions num_cpu req_solutions : nat.
Hypothesis some_cpu : 1 <= num_cpu.
Hypothesis req_le : req_solutions <= num_solutions.
Hypothesis population_rows : length population = num_solutions.

Lemma solver_loop_batches (comp_solutions : nat) (fitness : Np.ndarray)
      (batches : list (list nat)) :
  comp_solutions <= req_solutions ->
  Np.size fitness = num_solutions ->
  exists fitness' new_batches,
    solver_loop fitnessFun population num_solutions num_cpu req_solutions
                comp_solutions fitness batches
    = Ok (fitness', batches ++ new_batches) /\
    concat (rev new_batches)
    = seq (num_solutions - req_solutions) (req_solutions - comp_solutions) /\
    Forall (fun b => 1 <= length b <= num_cpu) new_batches /\
    length new_batches
    = (req_solutions - comp_solutions + num_cpu - 1) / num_cpu.
Proof.
  funelim (solver_loop fitnessFun population num_solutions num_cpu
                       req_solutions comp_solutions fitness batches).
  - intros Hc Hs. exists fitness0, []. rewrite app_nil_r.
    split; [reflexivity|].
    replace (req_solutions - comp_solutions) with 0 by lia.
    cbn [seq rev concat length]. split; [reflexivity|].
    split; [constructor|].
    symmetry. apply Nat.div_small. lia.
  - intros Hc Hs. lia.
  - intros Hc Hs.
    set (r := req_solutions - comp_solutions) in *.
    set (np := Nat.min r num_cpu) in *.
    assert (Hnp : 1 <= np <= r /\ np <= num_cpu) by (unfold np; lia).
    set (i1 := num_solutions - comp_solutions - np) in *.
    replace (i1 + np) with (num_solutions - comp_solutions) in * by lia.
    set (i2 := num_solutions - comp_solutions) in *.
    assert (Lrows : length (Np.getslice population i1 i2) = np)
      by (rewrite getslice_length; lia).
    rewrite Lrows in *.
    destruct (asetslice_fits fitness0 i1 i2
                (map fitnessFun (Np.getslice population i1 i2)))
      as (a' & Ea & Va & _);
      [lia | rewrite length_map, Lrows; lia |].
    rewrite Ea.
    assert (Lv : length (Np.values fitness0) = num_solutions) by exact Hs.
    destruct (H a') as (f2 & nb & Hrun & Hcat & Hall & Hlen).
    { lia. }
    { unfold Np.size. rewrite Va.
      rewrite !length_app, length_firstn, !length_map, length_skipn, Lrows.
      lia. }
    rewrite Hrun. exists f2, (seq i1 np :: nb).
    split; [rewrite <- app_assoc; reflexivity|].
    replace (req_solutions - (comp_solutions + np)) with (r - np) in * by lia.
    split; [|split].
    + cbn [rev]. rewrite concat_app, Hcat. cbn [concat].
      rewrite app_nil_r.
      replace r with ((r - np) + np) at 2 by lia.
      rewrite seq_app. f_equal. f_equal. lia.
    + constructor; [rewrite length_seq; lia | exact Hall].
    + cbn [length]. rewrite Hlen. symmetry. apply batches_for; lia.
Qed.

End SolverBatches.

(** X9.  The scheduler walks the required rows from the end of the table
    towards the front, in consecutive blocks: read backwards, its batches
    are exactly the required rows in increasing order, so each required
    row is sent to the pool once and no other row is.  No batch is empty
    or larger than the number of workers, and a pool is started
    [ceil(required / num_cpu)] times. *)
Theorem solver_batches_are_blocks_from_the_end (fitnessFun : row -> Q)
        (fitness : Np.ndarray) (population : matrix) (no_data : bool)
        (num_solutions num_parents num_cpu : nat) :
  1 <= num_cpu -> num_parents <= num_solutions ->
  length population = num_solutions ->
  Np.size fitness = num_solutions ->
  exists fitness' batches,
    solver fitnessFun fitness population no_data
           num_solutions num_parents num_cpu = Ok (fitness', batches) /\
    concat (rev batches) = required_rows no_data num_solutions num_parents /\
    Forall (fun b => 1 <= length b <= num_cpu) batches /\
    length batches
    = (length (required_rows no_data num_solutions num_parents)
       + num_cpu - 1) / num_cpu.
Proof.
  intros Hcpu Hnp Hpop Hfit. unfold solver.
  set (req := if no_data then num_solutions else num_solutions - num_parents).
  assert (Hreq : req <= num_solutions) by (unfold req; destruct no_data; lia).
  destruct (solver_loop_batches fitnessFun population num_solutions
              num_cpu req Hcpu Hreq Hpop 0 fitness [] ltac:(lia) Hfit)
    as (f' & nb & Hrun & Hcat & Hall & Hlen).
  cbn [app] in Hrun. rewrite Hrun. exists f', nb.
  rewrite Nat.sub_0_r in Hcat, Hlen.
  assert (Hrows : required_rows no_data num_solutions num_parents
                  = seq (num_solutions - req) req).
  { unfold required_rows, req. destruct no_data.
    - rewrite Nat.sub_diag. reflexivity.
    - replace (num_solutions - (num_solutions - num_parents))
        with num_parents by lia.
      reflexivity. }
  rewrite Hrows, length_seq. auto.
Qed.

Lemma Qtrunc_bounds (x : Q) :
  ((0 <= x -> inject_Z (Np.Qtrunc x) <= x /\ x < inject_Z (Np.Qtrunc x) + 1)
   /\
   (x <= 0 -> inject_Z (Np.Qtrunc x) - 1 < x /\ x <= inject_Z (Np.Qtrunc x)))%Q.
Proof.
  destruct x as [n d]. unfold Np.Qtrunc. cbn [Qnum Qden].
  pose proof (Z.quot_rem' n (Zpos d)) as E.
  set (q := Z.quot n (Zpos d)) in *. set (r := Z.rem n (Zpos d)) in *.
  split; intros H; unfold Qminus;
    unfold Qle, Qlt, Qplus, Qopp, inject_Z in *;
    cbn [Qnum Qden] in *; rewrite ?Pos.mul_1_r.
  - pose proof (Z.rem_bound_pos n (Zpos d) ltac:(lia) ltac:(lia)) as Hr.
    fold r in Hr. clearbody q r. nia.
  - pose proof (Z.rem_bound_pos_neg n (Zpos d) ltac:(lia) ltac:(lia)) as Hr.
    fold r in Hr. clearbody q r. nia.
Qed.

(** X10.  What a fresh run keeps of a fitness value.  The vector is
    [int64], so, for fitness values whose integer part is an [int64], the
    entry stored for an evaluated row is a whole number, the fitness of
    that row cut toward zero: it is off by less than one and never larger
    in magnitude than the fitness itself. *)
Theorem fresh_run_fitness_is_cut_toward_zero (fitnessFun : row -> Q)
        (fitness : list Z) (population : matrix) (no_data : bool)
        (num_solutions num_parents num_cpu : nat) :
  1 <= num_cpu -> num_parents <= num_solutions ->
  length population = num_solutions ->
  length fitness = num_solutions ->
  (forall r, In r population -> fits_int64 (fitnessFun r)) ->
  exists fitness' batches,
    solver fitnessFun (Np.IntArr fitness) population no_data
           num_solutions num_parents num_cpu = Ok (fitness', batches) /\
    forall i, In i (concat batches) ->
      exists z : Z,
        nth i (Np.values fitness') 0%Q = inject_Z z /\
        (int64_min <= z <= int64_max)%Z /\
        let f := fitnessFun (nth i population []) in
        ((0 <= f -> inject_Z z <= f /\ f < inject_Z z + 1) /\
         (f <= 0 -> inject_Z z - 1 < f /\ f <= inject_Z z))%Q.
Proof.
  intros Hcpu Hnp Hpop Hfit Hfits.
  assert (Hsize : Np.size (Np.IntArr fitness) = num_solutions).
  { unfold Np.size. cbn. rewrite length_map. exact Hfit. }
  destruct (solver_stores_cast_fitness fitnessFun (Np.IntArr fitness)
              population no_data num_solutions num_parents num_cpu
              Hcpu Hnp Hpop Hsize)
    as (fitness' & batches & Hrun & Hval).
  destruct (solver_closed_form fitnessFun (Np.IntArr fitness) population
              no_data num_solutions num_parents num_cpu Hcpu Hnp Hpop Hsize)
    as (fitness2 & batches2 & Hrun2 & Hperm & _).
  rewrite Hrun in Hrun2. inversion Hrun2; subst fitness2 batches2.
  exists fitness', batches. split; [exact Hrun|].
  intros i Hi. exists (Np.Qtrunc (fitnessFun (nth i population []))).
  split; [apply Hval; exact Hi|]. split; [|apply Qtrunc_bounds].
  apply Hfits, nth_In.
  apply (Permutation_in _ Hperm) in Hi. unfold required_rows in Hi.
  destruct no_data; apply in_seq in Hi; lia.
Qed.

(* ===================================================================== *)
(** ** Start-up: the random initial population *)
(* ===================================================================== *)

Lemma for_range_from_indexed {St : Type} (P : nat -> St -> Prop)
      (body : nat -> St -> result St) (n start : nat) (s : St) :
  (forall k st, start <= k < start + n -> P k st ->
                exists st', body k st = Ok st' /\ P (S k) st') ->
  P start s ->
  exists s', for_range_from start n body s = Ok s' /\ P (start + n) s'.
Proof.
  revert start s. induction n as [|n IH]; intros start s Hbody Hs.
  - exists s. rewrite Nat.add_0_r. split; [reflexivity | exact Hs].
  - cbn [for_range_from].
    destruct (Hbody start s ltac:(lia) Hs) as (s1 & -> & Hs1). cbn [bind].
    replace (start + S n) with (S start + n) by lia.
    apply IH; [|exact Hs1].
    intros k st Hk. apply Hbody. lia.
Qed.

Lemma uniform_n_within `{RS : Np.RandomSource} (lo hi : Q) (n : nat)
      (g : Np.rng) :
  (lo <= hi)%Q ->
  Forall (fun x => (lo <= x <= hi)%Q) (fst (Np.uniform_n lo hi n g)).
Proof.
  intros Hle. revert g. induction n as [|n IH]; intros g;
    cbn [Np.uniform_n].
  - constructor.
  - pose proof (Np.uniform_range lo hi g Hle) as Hx.
    destruct (Np.uniform lo hi g) as [x g1].
    specialize (IH g1). destruct (Np.uniform_n lo hi n g1) as [xs g2].
    cbn [fst] in *. constructor; assumption.
Qed.

Lemma Forall2_In_right {A B : Type} (R : A -> B -> Prop)
      (l : list A) (l' : list B) (b : B) :
  Forall2 R l l' -> In b l' -> exists a, In a l /\ R a b.
Proof.
  induction 1 as [|x y l l' Hxy Hl IH]; intros Hin; [contradiction|].
  destruct Hin as [<-|Hin].
  - exists x. split; [left; reflexivity | exact Hxy].
  - destruct (IH Hin) as (a & Ha & HR). exists a. split; [right|]; assumption.
Qed.

(** [a[:, col] = vals] on a table of [cols] columns: each row keeps its
    length and its other cells, and gets one of [vals] at [col]. *)
Lemma setcol_zip_cells (cols col : nat) (m : matrix) (vals : list Q) :
  col < cols ->
  Forall (fun r => length r = cols) m -> length vals = length m ->
  exists m',
    Np.setcol_zip m col vals = Ok m' /\
    Forall2 (fun r r' =>
               length r' = length r /\
               (exists v, In v vals /\ nth_error r' col = Some v) /\
               forall c, c <> col -> nth_error r' c = nth_error r c) m m'.
Proof.
  intros Hcol. revert vals.
  induction m as [|r m IH]; intros [|v vals] Hf Hl; cbn in Hl;
    try discriminate.
  - exists []. split; [reflexivity | constructor].
  - apply Forall_cons_iff in Hf as [Hr Hf].
    destruct (split_at r col ltac:(lia)) as (r1 & a & r2 & -> & L1).
    cbn [Np.setcol_zip]. rewrite (setitem_at _ _ _ _ _ L1). cbn [bind].
    destruct (IH vals Hf ltac:(lia)) as (m' & -> & Hall).
    cbn [bind]. eexists. split; [reflexivity|]. constructor.
    + split; [rewrite !length_app; reflexivity|]. split.
      * exists v. split; [left; reflexivity|].
        rewrite nth_error_app2 by lia.
        rewrite L1, Nat.sub_diag. reflexivity.
      * intros c Hc. destruct (Nat.lt_ge_cases c col) as [Hlt|Hge].
        -- rewrite !nth_error_app1 by lia. reflexivity.
        -- rewrite !nth_error_app2 by lia.
           destruct (c - length r1) as [|k] eqn:Ek; [lia | reflexivity].
    + eapply Forall2_impl; [|exact Hall].
      intros x y (H1 & (w & Hw & Hn) & H3).
      split; [exact H1|]. split; [|exact H3].
      exists w. split; [right; exact Hw | exact Hn].
Qed.

(** X11.  A fresh start with one range per parameter, each with
    [low <= high]: the population drawn has [num_solutions] rows of
    [num_params] genes and every gene lies inside the range of its own
    column; the fitness vector is the [int64] vector of zeros; the workbook
    has been formatted and not saved. *)
Theorem fresh_population_within_ranges `{RS : Np.RandomSource}
        (num_params num_solutions : nat) (param_ranges : list (Q * Q))
        (uninit : Q) (e : exn) (g : Np.rng) :
  length param_ranges = num_params ->
  Forall (fun p => (fst p <= snd p)%Q) param_ranges ->
  exists s,
    startup num_params num_solutions param_ranges uninit (Raise e) g
    = Ok (Finished s) /\
    shape num_solutions num_params (population s) /\
    (forall r c lo hi,
        In r (population s) -> nth_error param_ranges c = Some (lo, hi) ->
        exists x, nth_error r c = Some x /\ (lo <= x <= hi)%Q) /\
    fitness s = Np.IntArr (repeat 0%Z num_solutions) /\
    no_data s = true /\
    wb s = format_workbook num_params /\
    forall path, ~ In (Save path) (wb s).
Proof.
  intros Hlen Hranges. unfold startup.
  rewrite Hlen, Nat.eqb_refl. cbn [negb].
  unfold random_population, for_range.
  destruct (for_range_from_indexed
              (fun k (st : matrix * Np.rng) =>
                 shape num_solutions num_params (fst st) /\
                 forall r c lo hi,
                   In r (fst st) -> c < k ->
                   nth_error param_ranges c = Some (lo, hi) ->
                   exists x, nth_error r c = Some x /\ (lo <= x <= hi)%Q)
              (random_column num_solutions param_ranges)
              num_params 0
              (Np.empty uninit num_solutions num_params, g))
    as ([pop0 g'] & Hrun & Hshape & Hin).
  - intros col [m g0] Hcol ([Lm Fm] & Hprev). cbn [fst] in *.
    unfold random_column.
    destruct (split_at param_ranges col ltac:(lia))
      as (pr1 & [lo hi] & pr2 & Epr & Lpr).
    assert (Hnth : nth_error param_ranges col = Some (lo, hi)).
    { rewrite Epr, nth_error_app2 by lia.
      rewrite Lpr, Nat.sub_diag. reflexivity. }
    rewrite (getitem_nth_error _ _ _ Hnth). cbn [bind fst snd].
    assert (Hlohi : (lo <= hi)%Q).
    { rewrite Forall_forall in Hranges.
      apply (Hranges (lo, hi)). eapply nth_error_In. exact Hnth. }
    pose proof (uniform_n_length lo hi num_solutions g0) as Lu.
    pose proof (uniform_n_within lo hi num_solutions g0 Hlohi) as Wu.
    destruct (Np.uniform_n lo hi num_solutions g0) as [vals g1].
    cbn [fst] in Lu, Wu. unfold Np.setcol.
    rewrite broadcast_same by lia. cbn [bind].
    destruct (setcol_zip_cells num_params col m vals)
      as (m' & -> & Hcells); [lia | exact Fm | lia |].
    cbn [bind]. eexists. split; [reflexivity|]. cbn [fst].
    split.
    + split.
      * pose proof (Forall2_length Hcells) as HL.
        unfold matrix, row in *. lia.
      * clear - Hcells Fm. induction Hcells as [|r r' m m' Hr Hm IH];
          [constructor|].
        apply Forall_cons_iff in Fm as [Lr Fm].
        constructor; [destruct Hr as [-> _]; exact Lr | apply IH; exact Fm].
    + intros r' c lo' hi' Hr' Hc Hnth'.
      destruct (Forall2_In_right _ _ _ _ Hcells Hr')
        as (r & Hr & Hlenr & (v & Hv & Hcolv) & Hother).
      destruct (Nat.eq_dec c col) as [->|Hne].
      * rewrite Hnth in Hnth'. inversion Hnth'; subst.
        exists v. split; [exact Hcolv|].
        rewrite Forall_forall in Wu. apply Wu. exact Hv.
      * rewrite (Hother c Hne). apply (Hprev r c lo' hi' Hr); [lia|exact Hnth'].
  - cbn [fst]. split.
    + unfold Np.empty. split; [apply repeat_length|].
      apply Forall_forall. intros r Hr. apply repeat_spec in Hr. subst.
      apply repeat_length.
    + intros r c lo hi _ Hc. lia.
  - rewrite Hrun. cbn [bind fst snd]. eexists. split; [reflexivity|].
    cbn [population fitness no_data wb].
    split; [exact Hshape|]. split.
    + intros r c lo hi Hr Hnth. apply (Hin r c lo hi Hr); [|exact Hnth].
      cbn. rewrite <- Hlen. apply nth_error_Some. congruence.
    + repeat (split; [reflexivity|]).
      intros path Hp. unfold format_workbook in Hp. cbn [In] in Hp.
      repeat (destruct Hp as [Hp|Hp]; [discriminate|]). exact Hp.
Qed.

(* ===================================================================== *)
(** ** The loop: what a run does besides ranking *)
(* ===================================================================== *)

(** The dtype of a 1-D array: [true] for [int64]. *)
Definition int_dtype (a : Np.ndarray) : bool :=
  match a with
  | Np.IntArr _ => true
  | Np.FloatArr _ => false
  end.

Definition is_save (op : wbop) : bool :=
  match op with
  | Save _ => true
  | _ => false
  end.

(** Number of [wb.save] calls in a sequence of workbook calls. *)
Definition count_saves (ops : list wbop) : nat :=
  length (filter is_save ops).

(** The workbook calls of one generation, in the order of the source; the
    first generation of a fresh run saves under the output file's name
    before it writes the record. *)
Definition generation_ops (fresh : bool) (output_file : string)
           (population : matrix) (fitness : Np.ndarray) (recorded : nat)
           (record : matrix) : list wbop :=
  [ RangeWrite "Population" 1 1 (CTable population);
    RangeWrite "Fitness" 1 1 (CArray fitness) ]
  ++ (if fresh then [Save (Some output_file)] else [])
  ++ [ RangeWrite "Record" 3 5 (CNum (inject_Z (Z.of_nat recorded)));
       RangeWrite "Record" 6 2 (CTable record);
       Save None ].

(** What a call writes at the range anchored at row [r], column [c] of
    [sheet], if it writes there. *)
Definition written_at (sheet : string) (r c : nat) (op : wbop)
  : option cell :=
  match op with
  | RangeWrite sh r' c' v =>
      if (String.eqb sh sheet && (r' =? r) && (c' =? c))%bool then Some v
      else None
  | _ => None
  end.

(** The value most recently written at an anchor by a sequence of calls. *)
Fixpoint last_written (sheet : string) (r c : nat) (ops : list wbop)
  : option cell :=
  match ops with
  | [] => None
  | op :: rest =>
      match last_written sheet r c rest with
      | Some v => Some v
      | None => written_at sheet r c op
      end
  end.

Lemma last_written_app (sheet : string) (r c : nat) (l1 l2 : list wbop) :
  last_written sheet r c (l1 ++ l2)
  = match last_written sheet r c l2 with
    | Some v => Some v
    | None => last_written sheet r c l1
    end.
Proof.
  induction l1 as [|op l1 IH]; cbn [app last_written].
  - destruct (last_written sheet r c l2); reflexivity.
  - rewrite IH. destruct (last_written sheet r c l2); reflexivity.
Qed.

Lemma generation_ops_end (fresh : bool) (f : string) (p : matrix)
      (a : Np.ndarray) (n : nat) (r : matrix) :
  exists before, generation_ops fresh f p a n r = before ++ [Save None].
Proof.
  destruct fresh.
  - exists [ RangeWrite "Population" 1 1 (CTable p);
             RangeWrite "Fitness" 1 1 (CArray a);
             Save (Some f);
             RangeWrite "Record" 3 5 (CNum (inject_Z (Z.of_nat n)));
             RangeWrite "Record" 6 2 (CTable r) ].
    reflexivity.
  - exists [ RangeWrite "Population" 1 1 (CTable p);
             RangeWrite "Fitness" 1 1 (CArray a);
             RangeWrite "Record" 3 5 (CNum (inject_Z (Z.of_nat n)));
             RangeWrite "Record" 6 2 (CTable r) ].
    reflexivity.
Qed.

Lemma bind_Ok {A B : Type} (c : result A) (k : A -> result B) (b : B) :
  bind c k = Ok b -> exists a, c = Ok a /\ k a = Ok b.
Proof.
  destruct c as [a|e]; cbn; [|discriminate]. intros H. exists a. auto.
Qed.

Lemma asetslice_keeps_dtype (a a' : Np.ndarray) (i1 i2 : nat) (xs : list Q) :
  Np.asetslice a i1 i2 xs = Ok a' -> int_dtype a' = int_dtype a.
Proof.
  destruct a as [l|l]; cbn; intros H; apply bind_Ok in H as (l' & _ & H);
    inversion H; reflexivity.
Qed.

Lemma solver_loop_keeps_dtype (fitnessFun : row -> Q) (population : matrix)
      (num_solutions num_cpu req_solutions comp_solutions : nat)
      (fitness : Np.ndarray) (batches : list (list nat)) :
  forall fitness' batches',
    solver_loop fitnessFun population num_solutions num_cpu req_solutions
                comp_solutions fitness batches = Ok (fitness', batches') ->
    int_dtype fitness' = int_dtype fitness.
Proof.
  funelim (solver_loop fitnessFun population num_solutions num_cpu
                       req_solutions comp_solutions fitness batches);
    intros fitness' batches' Hrun.
  - inversion Hrun. reflexivity.
  - discriminate.
  - destruct (Np.asetslice _ _ _ _) as [a'|e] eqn:Ea; [|discriminate].
    rewrite (H a' _ _ Hrun). eapply asetslice_keeps_dtype. exact Ea.
Qed.

Lemma atake_keeps_dtype (a : Np.ndarray) (idx : list nat) :
  int_dtype (Np.atake a idx) = int_dtype a.
Proof. destruct a; reflexivity. Qed.

Section LoopFacts.

Context `{RS : Np.RandomSource} `{AS : Np.Argsort}.

Variable fitnessFun : row -> Q.
Variable output_file : string.
Variables num_params num_solutions num_parents : nat.
Variable param_ranges : list (Q * Q).
Variable num_cpu : nat.
Variable uninit : Q.

Local Notation "'breed'" :=
  (breed_and_evaluate fitnessFun num_params num_solutions num_parents
                      param_ranges num_cpu uninit).
Local Notation "'rank'" :=
  (rank_and_record output_file num_params uninit).
Local Notation "'step'" :=
  (generation fitnessFun output_file num_params num_solutions num_parents
              param_ranges num_cpu uninit).
Local Notation "'steps'" :=
  (generations fitnessFun output_file num_params num_solutions num_parents
               param_ranges num_cpu uninit).
Local Notation "'shaped'" := (well_shaped num_params num_solutions).

(** What a completed generation did, read off its two halves; no
    assumption on shapes. *)
Lemma generation_trace (s s' : RunState) :
  step s = Ok s' ->
  exists population1 fitness1 batches,
    breed s = Ok (population1, fitness1, gen s', batches) /\
    int_dtype (fitness s') = int_dtype (fitness s) /\
    evals s' = evals s ++ batches /\
    no_data s' = false /\
    wb s' = wb s ++ generation_ops (no_data s) output_file (population s')
                                   (fitness s') (recorded_generations s')
                                   (record s').
Proof.
  unfold generation. intros H.
  apply bind_Ok in H as ([[[population1 fitness1] g] batches] & Hb & Hr).
  assert (Hd : int_dtype fitness1 = int_dtype (fitness s)).
  { unfold breed_and_evaluate in Hb.
    apply bind_Ok in Hb as (oc & _ & Hb).
    apply bind_Ok in Hb as (om & _ & Hb).
    apply bind_Ok in Hb as (p1 & _ & Hb).
    apply bind_Ok in Hb as ([f1 b1] & Hsol & Hb).
    inversion Hb; subst. cbn [fst].
    unfold solver in Hsol. eapply solver_loop_keeps_dtype. exact Hsol. }
  unfold rank_and_record in Hr. unfold generation_ops.
  destruct (no_data s) eqn:End.
  - apply bind_Ok in Hr as (nr & _ & Hr). inversion Hr; subst. cbn.
    exists population1, fitness1, batches.
    rewrite atake_keeps_dtype, <- !app_assoc. auto.
  - apply bind_Ok in Hr as (nr & _ & Hr).
    apply bind_Ok in Hr as (rec' & _ & Hr). inversion Hr; subst. cbn.
    exists population1, fitness1, batches.
    rewrite atake_keeps_dtype, <- !app_assoc. auto.
Qed.

Lemma count_saves_app (l1 l2 : list wbop) :
  count_saves (l1 ++ l2) = count_saves l1 + count_saves l2.
Proof. unfold count_saves. rewrite filter_app, length_app. reflexivity. Qed.

Lemma count_saves_generation (fresh : bool) (f : string) (p : matrix)
      (a : Np.ndarray) (n : nat) (r : matrix) :
  count_saves (generation_ops fresh f p a n r) = if fresh then 2 else 1.
Proof. destruct fresh; reflexivity. Qed.

Hypothesis some_param : 1 <= num_params.
Hypothesis parents_bounds : 1 <= num_parents <= num_solutions.
Hypothesis ranges_len : length param_ranges = num_params.
Hypothesis some_cpu : 1 <= num_cpu.

(** Induction over the generations of a run that starts well-shaped. *)
Lemma generations_invariant (P : nat -> RunState -> Prop) (s0 : RunState) :
  shaped s0 -> P 0 s0 ->
  (forall k s s', shaped s -> P k s -> step s = Ok s' -> P (S k) s') ->
  forall k, exists s, steps k s0 = Ok s /\ shaped s /\ P k s.
Proof.
  intros Hs0 H0 Hstep k. induction k as [|k (s & Hrun & Hs & HP)].
  - exists s0. split; [reflexivity | split; assumption].
  - destruct (generation_completes fitnessFun output_file num_params
                num_solutions num_parents param_ranges num_cpu uninit
                some_param parents_bounds ranges_len some_cpu s Hs)
      as (s' & Hgen & Hs' & _).
    exists s'. split; [|split; [exact Hs'|]].
    + rewrite generations_snoc, Hrun. exact Hgen.
    + exact (Hstep k s s' Hs HP Hgen).
Qed.

Lemma generation_ok_of_step (s s' : RunState) :
  shaped s -> step s = Ok s' ->
  exists offspring fitness1 batches,
    shape (num_solutions - num_parents) num_params offspring /\
    Permutation (concat batches)
                (required_rows (no_data s) num_solutions num_parents) /\
    Np.size fitness1 = num_solutions /\
    population s'
    = Np.take [] (firstn num_parents (population s) ++ offspring)
              (Np.argsort (Np.values fitness1)) /\
    fitness s' = Np.atake fitness1 (Np.argsort (Np.values fitness1)) /\
    record s'
    = recorded_entries s
      ++ [record_entry (recorded_count s + 1)
                       (nth 0 (population s') [])
                       (nth 0 (Np.values (fitness s')) 0%Q)] /\
    recorded_generations s' = recorded_count s + 1 /\
    no_data s' = false /\
    evals s' = evals s ++ batches.
Proof.
  intros Hs Hstep.
  destruct (generation_ok fitnessFun output_file num_params num_solutions
              num_parents param_ranges num_cpu uninit
              some_param parents_bounds ranges_len some_cpu s Hs)
    as (offspring & fitness1 & g & batches & s2 & Hb & Hstep2 & Hp1 & Hperm
        & _ & Hsize & Hp' & Hf' & Hrec & Hcnt & Hnd & Hev & _).
  rewrite Hstep in Hstep2. inversion Hstep2; subst s2.
  destruct (breed_and_evaluate_ok fitnessFun num_params num_solutions
              num_parents param_ranges num_cpu uninit
              some_param parents_bounds ranges_len some_cpu s Hs)
    as (o2 & f2 & g2 & b2 & Hb2 & Hoff & _).
  rewrite Hb in Hb2. inversion Hb2 as [[Eo Ef Eg Eb]].
  apply app_inv_head in Eo. rewrite <- Eo in Hoff.
  exists offspring, fitness1, batches.
  split; [exact Hoff|]. split; [exact Hperm|]. split; [exact Hsize|].
  split; [exact Hp'|]. split; [exact Hf'|]. split; [exact Hrec|].
  split; [exact Hcnt|]. split; [exact Hnd | exact Hev].
Qed.

(** X12.  A fresh run on a valid configuration, with a fitness function
    whose values fit the [int64] vector of a fresh run, completes all its
    generations: the call returns by running off its end, the tables keep
    their shapes, and the record holds one row per generation run, the
    count kept with it being that number. *)
Theorem fresh_run_records_every_generation (num_generations : nat)
        (e : exn) (g : Np.rng) :
  (forall r, fits_int64 (fitnessFun r)) ->
  exists s,
    geneticAlgoSolve fitnessFun output_file num_generations num_params
                     num_solutions num_parents param_ranges num_cpu uninit
                     (Raise e) g
    = Ok (Finished s) /\
    shaped s /\
    length (recorded_entries s) = num_generations /\
    recorded_count s = num_generations /\
    (1 <= num_generations ->
     no_data s = false /\ length (record s) = num_generations /\
     recorded_generations s = num_generations).
Proof.
  intros Hfits.
  destruct (fresh_start_shaped num_params num_solutions param_ranges uninit
              e g ranges_len) as (s0 & Hstart & Hs0 & Hnd0 & _).
  destruct (generations_invariant
              (fun k s => length (recorded_entries s) = k /\
                          recorded_count s = k /\
                          (1 <= k -> no_data s = false))
              s0 Hs0) with (k := num_generations)
    as (s & Hrun & Hs & Hlen & Hcnt & Hnd).
  - unfold recorded_entries, recorded_count. rewrite Hnd0.
    repeat split. lia.
  - intros k s1 s2 Hs1 (Hl & Hc & _) Hstep.
    destruct (generation_ok_of_step s1 s2 Hs1 Hstep)
      as (_ & _ & _ & _ & _ & _ & _ & _ & Hrec & Hgen & Hnd2 & _).
    unfold recorded_entries, recorded_count in *. rewrite Hnd2.
    rewrite Hrec, Hgen, length_app. cbn [length]. repeat split; lia.
  - exists s. unfold geneticAlgoSolve. rewrite Hstart. cbn [bind].
    rewrite Hrun. cbn [bind]. split; [reflexivity|].
    split; [exact Hs|]. split; [exact Hlen|]. split; [exact Hcnt|].
    intros H1. specialize (Hnd H1).
    unfold recorded_entries, recorded_count in *. rewrite Hnd in *. auto.
Qed.

(** X13.  The workbook is saved once per generation, plus once more in
    the first generation of a fresh run, which saves under the output
    file's name before writing the record and again after. *)
Theorem run_saves_once_per_generation (s0 : RunState) (k : nat) :
  shaped s0 ->
  exists s,
    steps k s0 = Ok s /\
    count_saves (wb s)
    = count_saves (wb s0) + k
      + (if no_data s0 then (if k =? 0 then 0 else 1) else 0).
Proof.
  intros Hs0.
  destruct (generations_invariant
              (fun k s =>
                 count_saves (wb s)
                 = count_saves (wb s0) + k
                   + (if no_data s0 then (if k =? 0 then 0 else 1) else 0)
                 /\ (k = 0 -> no_data s = no_data s0)
                 /\ (1 <= k -> no_data s = false))
              s0 Hs0) with (k := k) as (s & Hrun & _ & Hcount & _).
  - cbn [Nat.eqb]. split; [destruct (no_data s0); lia|].
    split; [reflexivity | lia].
  - intros j s1 s2 Hs1 (Hc & Hz & Hp) Hstep.
    destruct (generation_trace s1 s2 Hstep)
      as (p1 & f1 & b & _ & _ & _ & Hnd2 & Hwb).
    split; [|split; [lia | intros _; exact Hnd2]].
    rewrite Hwb, count_saves_app, count_saves_generation, Hc.
    destruct j as [|j].
    + rewrite (Hz eq_refl). cbn [Nat.eqb]. destruct (no_data s0); lia.
    + rewrite (Hp ltac:(lia)). cbn [Nat.eqb]. destruct (no_data s0); lia.
  - exists s. split; assumption.
Qed.

(** X14.  Fitness is computed [num_solutions - num_parents] times per
    generation, plus [num_parents] times more in the first generation of a
    fresh run: what the parents scored is never computed again. *)
Theorem run_evaluates_only_new_rows (s0 : RunState) (k : nat) :
  shaped s0 ->
  exists s,
    steps k s0 = Ok s /\
    length (concat (evals s))
    = length (concat (evals s0)) + k * (num_solutions - num_parents)
      + (if no_data s0 then (if k =? 0 then 0 else num_parents) else 0).
Proof.
  intros Hs0.
  destruct (generations_invariant
              (fun k s =>
                 length (concat (evals s))
                 = length (concat (evals s0))
                   + k * (num_solutions - num_parents)
                   + (if no_data s0
                      then (if k =? 0 then 0 else num_parents) else 0)
                 /\ (k = 0 -> no_data s = no_data s0)
                 /\ (1 <= k -> no_data s = false))
              s0 Hs0) with (k := k) as (s & Hrun & _ & Hcount & _).
  - cbn [Nat.eqb]. split; [destruct (no_data s0); lia|].
    split; [reflexivity | lia].
  - intros j s1 s2 Hs1 (Hc & Hz & Hp) Hstep.
    destruct (generation_ok_of_step s1 s2 Hs1 Hstep)
      as (_ & _ & b & _ & Hperm & _ & _ & _ & _ & _ & Hnd2 & Hev).
    split; [|split; [lia | intros _; exact Hnd2]].
    rewrite Hev, concat_app, length_app, Hc.
    rewrite (Permutation_length Hperm). unfold required_rows.
    destruct j as [|j].
    + rewrite (Hz eq_refl). cbn [Nat.eqb].
      destruct (no_data s0); rewrite length_seq; lia.
    + rewrite (Hp ltac:(lia)). cbn [Nat.eqb].
      destruct (no_data s0); rewrite length_seq; lia.
  - exists s. split; assumption.
Qed.

(** X15.  A fresh run never leaves the integers: for a fitness function
    whose values fit [int64], its fitness vector is [int64] after every
    generation, and so the best fitness written into each row of the
    record is a whole number, also when the fitness function returns
    fractions. *)
Theorem fresh_run_records_whole_numbers (num_generations : nat)
        (e : exn) (g : Np.rng) :
  (forall r, fits_int64 (fitnessFun r)) ->
  exists s l,
    geneticAlgoSolve fitnessFun output_file num_generations num_params
                     num_solutions num_parents param_ranges num_cpu uninit
                     (Raise e) g
    = Ok (Finished s) /\
    fitness s = Np.IntArr l /\
    Forall (fun entry => exists z : Z, last entry 0%Q = inject_Z z)
           (recorded_entries s).
Proof.
  intros Hfits.
  destruct (fresh_start_shaped num_params num_solutions param_ranges uninit
              e g ranges_len) as (s0 & Hstart & Hs0 & Hnd0 & Hf0 & _).
  destruct (generations_invariant
              (fun _ s =>
                 int_dtype (fitness s) = true /\
                 Forall (fun entry => exists z : Z, last entry 0%Q = inject_Z z)
                        (recorded_entries s))
              s0 Hs0) with (k := num_generations)
    as (s & Hrun & _ & Hd & Hrec).
  - rewrite Hf0. split; [reflexivity|].
    unfold recorded_entries. rewrite Hnd0. constructor.
  - intros k s1 s2 Hs1 (Hd1 & Hr1) Hstep.
    destruct (generation_trace s1 s2 Hstep) as (_ & _ & _ & _ & Hd2 & _).
    destruct (generation_ok_of_step s1 s2 Hs1 Hstep)
      as (_ & _ & _ & _ & _ & _ & _ & _ & Hrec2 & _ & Hnd2 & _).
    rewrite Hd1 in Hd2. split; [exact Hd2|].
    unfold recorded_entries at 1. rewrite Hnd2, Hrec2.
    apply Forall_app. split; [exact Hr1|]. constructor; [|constructor].
    unfold record_entry.
    change (inject_Z (Z.of_nat (recorded_count s1 + 1))
              :: nth 0 (population s2) []
              ++ [nth 0 (Np.values (fitness s2)) 0%Q])
      with ((inject_Z (Z.of_nat (recorded_count s1 + 1))
               :: nth 0 (population s2) [])
              ++ [nth 0 (Np.values (fitness s2)) 0%Q]).
    rewrite last_last.
    destruct (fitness s2) as [l2|l2]; [|discriminate]. cbn [Np.values].
    exists (nth 0 l2 0%Z). change 0%Q with (inject_Z 0). apply map_nth.
  - destruct (fitness s) as [l|l] eqn:Ef; [|discriminate].
    exists s, l. unfold geneticAlgoSolve. rewrite Hstart. cbn [bind].
    rewrite Hrun. cbn [bind]. auto.
Qed.


(** X18.  When a run of at least one generation ends, the workbook holds
    the state it ended with: the last table written to the Population
    sheet is the final population, the last array written to the Fitness
    sheet the final fitness, the last count and table written to the Record
    sheet the final count and record; and the last call of all is
    [wb.save()], so nothing written is left unsaved. *)
Theorem workbook_holds_final_state (s0 : RunState) (k : nat) :
  shaped s0 ->
  exists s,
    steps (S k) s0 = Ok s /\
    last_written "Population" 1 1 (wb s) = Some (CTable (population s)) /\
    last_written "Fitness" 1 1 (wb s) = Some (CArray (fitness s)) /\
    last_written "Record" 3 5 (wb s)
    = Some (CNum (inject_Z (Z.of_nat (recorded_generations s)))) /\
    last_written "Record" 6 2 (wb s) = Some (CTable (record s)) /\
    last (wb s) BookNew = Save None.
Proof.
  intros Hs0.
  destruct (generations_invariant
              (fun j s =>
                 1 <= j ->
                 last_written "Population" 1 1 (wb s)
                 = Some (CTable (population s)) /\
                 last_written "Fitness" 1 1 (wb s)
                 = Some (CArray (fitness s)) /\
                 last_written "Record" 3 5 (wb s)
                 = Some (CNum (inject_Z (Z.of_nat (recorded_generations s))))
                 /\
                 last_written "Record" 6 2 (wb s) = Some (CTable (record s))
                 /\
                 last (wb s) BookNew = Save None)
              s0 Hs0) with (k := S k) as (s & Hrun & _ & HP).
  - lia.
  - intros j s1 s2 _ _ Hstep _.
    destruct (generation_trace s1 s2 Hstep) as (_ & _ & _ & _ & _ & _ & _ & Hwb).
    rewrite Hwb, !last_written_app.
    destruct (generation_ops_end (no_data s1) output_file (population s2)
                (fitness s2) (recorded_generations s2) (record s2))
      as (before & Hend).
    split; [destruct (no_data s1); reflexivity|].
    split; [destruct (no_data s1); reflexivity|].
    split; [destruct (no_data s1); reflexivity|].
    split; [destruct (no_data s1); reflexivity|].
    rewrite Hend, app_assoc. apply last_last.
  - exists s. split; [exact Hrun|]. apply HP. lia.
Qed.

End LoopFacts.

(* ===================================================================== *)
(** ** The length check guards the fresh path only *)
(* ===================================================================== *)

Lemma mutation_first_row_without_ranges `{RS : Np.RandomSource}
      (r : row) (m : matrix) (num_params : nat) (g : Np.rng) :
  1 <= num_params ->
  mutation (r :: m) num_params [] g = Raise IndexError.
Proof.
  intros Hn. unfold mutation, for_range. cbn [length for_range_from].
  unfold mutation_row at 1.
  destruct (num_params =? 0) eqn:E; [apply Nat.eqb_eq in E; lia|].
  destruct (Np.randint num_params g) as [col g1].
  destruct col; reflexivity.
Qed.

(** X17.  [len(param_ranges)] is compared with [num_params] only in the
    [except] branch.  A run that resumes from a loaded workbook with an
    empty [param_ranges] is not stopped by the message: it goes into its
    first generation and fails there with [IndexError], in mutation, before
    anything is evaluated or written. *)
Theorem resumed_run_skips_the_length_check
        `{RS : Np.RandomSource} `{AS : Np.Argsort}
        (fitnessFun : row -> Q) (output_file : string)
        (num_generations num_params num_solutions num_parents : nat)
        (num_cpu : nat) (uninit : Q) (ck : checkpoint) (g : Np.rng) :
  1 <= num_generations -> 1 <= num_params ->
  1 <= num_parents < num_solutions ->
  shape num_solutions num_params (ck_population ck) ->
  geneticAlgoSolve fitnessFun output_file num_generations num_params
                   num_solutions num_parents [] num_cpu uninit (Ok ck) g
  = Raise IndexError.
Proof.
  intros Hgen Hn Hp Hpop.
  unfold geneticAlgoSolve, startup. cbn [bind].
  destruct num_generations as [|n]; [lia|]. cbn [generations].
  unfold generation, breed_and_evaluate. cbn [population gen].
  rewrite getslice_prefix.
  assert (Hparents : shape num_parents num_params
                           (firstn num_parents (ck_population ck))).
  { apply (shape_firstn num_solutions); [exact Hpop | lia]. }
  assert (Hb : 1 <= num_parents <= num_solutions) by lia.
  rewrite (crossover_closed_form uninit _ _ _ _ Hparents Hb).
  cbn [bind].
  destruct (num_solutions - num_parents) as [|k] eqn:E; [lia|].
  cbn [seq map].
  rewrite mutation_first_row_without_ranges by exact Hn.
  reflexivity.
Qed.

(* ===================================================================== *)
(** ** Genes and their ranges *)
(* ===================================================================== *)

(** Every gene of [r] that has a range lies inside it. *)
Definition within_ranges (param_ranges : list (Q * Q)) (r : row) : Prop :=
  forall c lo hi,
    nth_error param_ranges c = Some (lo, hi) ->
    exists x, nth_error r c = Some x /\ (lo <= x <= hi)%Q.

Lemma offspring_genes_within (param_ranges : list (Q * Q)) (parents : matrix)
      (num_parents num_params cp k : nat) :
  shape num_parents num_params parents -> 1 <= num_parents ->
  cp <= num_params ->
  Forall (within_ranges param_ranges) parents ->
  within_ranges param_ranges (offspring_genes parents num_parents cp k).
Proof.
  intros Hs Hp Hcp Hw c lo hi Hc. unfold offspring_genes.
  assert (H1 : k mod num_parents < num_parents)
    by (apply Nat.mod_upper_bound; lia).
  assert (H2 : (k + 1) mod num_parents < num_parents)
    by (apply Nat.mod_upper_bound; lia).
  destruct (shaped_row _ _ _ _ Hs H1) as [_ L1].
  destruct (shaped_row _ _ _ _ Hs H2) as [_ L2].
  destruct Hs as [Lp _]. rewrite Forall_forall in Hw.
  set (p1 := nth (k mod num_parents) parents []) in *.
  set (p2 := nth ((k + 1) mod num_parents) parents []) in *.
  assert (W1 : within_ranges param_ranges p1)
    by (apply Hw, nth_In; lia).
  assert (W2 : within_ranges param_ranges p2)
    by (apply Hw, nth_In; lia).
  destruct (Nat.lt_ge_cases c cp) as [Hlt|Hge].
  - rewrite nth_error_app1 by (rewrite length_firstn; lia).
    rewrite nth_error_firstn.
    destruct (Nat.ltb_spec c cp) as [_|Hn]; [|lia].
    exact (W1 c lo hi Hc).
  - rewrite nth_error_app2 by (rewrite length_firstn; lia).
    rewrite length_firstn, Nat.min_l by lia.
    rewrite nth_error_skipn.
    replace (cp + (c - cp)) with c by lia.
    exact (W2 c lo hi Hc).
Qed.

Lemma one_gene_redrawn_within (num_params : nat) (param_ranges : list (Q * Q))
      (r r' : row) :
  within_ranges param_ranges r ->
  one_gene_redrawn num_params param_ranges r r' ->
  within_ranges param_ranges r'.
Proof.
  intros Hw (col & lo0 & hi0 & v & _ & Hcol & Hv & _ & Hnew & Hold) c lo hi Hc.
  destruct (Nat.eq_dec c col) as [->|Hne].
  - rewrite Hcol in Hc. inversion Hc; subst lo0 hi0.
    exists v. split; assumption.
  - rewrite (Hold c Hne). exact (Hw c lo hi Hc).
Qed.

Section RangeFacts.

Context `{RS : Np.RandomSource} `{AS : Np.Argsort}.

Variable fitnessFun : row -> Q.
Variable output_file : string.
Variables num_params num_solutions num_parents : nat.
Variable param_ranges : list (Q * Q).
Variable num_cpu : nat.
Variable uninit : Q.

Hypothesis some_param : 1 <= num_params.
Hypothesis parents_bounds : 1 <= num_parents <= num_solutions.
Hypothesis ranges_len : length param_ranges = num_params.
Hypothesis some_cpu : 1 <= num_cpu.
Hypothesis ranges_ordered : Forall (fun p => (fst p <= snd p)%Q) param_ranges.

Local Notation "'breed'" :=
  (breed_and_evaluate fitnessFun num_params num_solutions num_parents
                      param_ranges num_cpu uninit).
Local Notation "'step'" :=
  (generation fitnessFun output_file num_params num_solutions num_parents
              param_ranges num_cpu uninit).
Local Notation "'steps'" :=
  (generations fitnessFun output_file num_params num_solutions num_parents
               param_ranges num_cpu uninit).
Local Notation "'shaped'" := (well_shaped num_params num_solutions).

(** Breeding keeps the genes inside their ranges: crossover copies genes
    column by column and mutation draws inside the column's range. *)
Lemma breed_within (s : RunState) (population1 : matrix)
      (fitness1 : Np.ndarray) (g : Np.rng) (batches : list (list nat)) :
  shaped s ->
  Forall (within_ranges param_ranges) (population s) ->
  breed s = Ok (population1, fitness1, g, batches) ->
  Forall (within_ranges param_ranges) population1.
Proof.
  intros (Hpop & _ & _) Hw Hb. unfold breed_and_evaluate in Hb.
  rewrite getslice_prefix in Hb.
  assert (Hparents : shape num_parents num_params
                           (firstn num_parents (population s))).
  { apply (shape_firstn num_solutions); [exact Hpop | lia]. }
  rewrite (crossover_closed_form uninit _ _ _ _ Hparents parents_bounds) in Hb.
  cbn [bind] in Hb.
  assert (Wparents : Forall (within_ranges param_ranges)
                            (firstn num_parents (population s))).
  { apply Forall_firstn_skipn. exact Hw. }
  set (crossed := map _ (seq 0 (num_solutions - num_parents))) in Hb.
  assert (Lc : length crossed = num_solutions - num_parents).
  { unfold crossed. rewrite length_map, length_seq. reflexivity. }
  assert (Fc : Forall (fun r => length r = num_params) crossed).
  { apply Forall_forall. intros r Hr. unfold crossed in Hr.
    apply in_map_iff in Hr as (k & <- & _).
    apply offspring_genes_length; [exact Hparents | lia |].
    apply uint8_half_le. }
  assert (Wc : Forall (within_ranges param_ranges) crossed).
  { apply Forall_forall. intros r Hr. unfold crossed in Hr.
    apply in_map_iff in Hr as (k & <- & _).
    apply (offspring_genes_within param_ranges _ num_parents num_params);
      [exact Hparents | lia | apply uint8_half_le | exact Wparents]. }
  destruct (mutation_ok num_params param_ranges some_param ranges_len
              crossed (gen s) Fc) as (offspring & g' & Hmut & Hoff & Hall).
  rewrite Hmut in Hb. cbn [bind fst snd] in Hb.
  rewrite Lc in Hoff. destruct Hpop as [Lp Fp]. destruct Hoff as [Lo Fo].
  rewrite (setrows_fits num_params) in Hb by (auto; lia).
  cbn [bind] in Hb.
  apply bind_Ok in Hb as (fb & _ & Hb). inversion Hb; subst population1.
  apply Forall_app. split; [exact Wparents|].
  specialize (Hall ranges_ordered).
  clear - Hall Wc. induction Hall as [|r r' l l' Hone _ IH].
  - constructor.
  - apply Forall_cons_iff in Wc as [Wr Wl]. constructor.
    + exact (one_gene_redrawn_within _ _ _ _ Wr Hone).
    + exact (IH Wl).
Qed.

(** X19.  The ranges are respected throughout a run: if every gene of the
    population a run starts from lies inside the range of its column, so
    does every gene of the population after any number of generations. *)
Theorem genes_stay_within_ranges (s0 : RunState) (k : nat) :
  shaped s0 ->
  Forall (within_ranges param_ranges) (population s0) ->
  exists s,
    steps k s0 = Ok s /\
    forall r c lo hi,
      In r (population s) -> nth_error param_ranges c = Some (lo, hi) ->
      exists x, nth_error r c = Some x /\ (lo <= x <= hi)%Q.
Proof.
  intros Hs0 Hw0.
  destruct (generations_invariant fitnessFun output_file num_params
              num_solutions num_parents param_ranges num_cpu uninit
              some_param parents_bounds ranges_len some_cpu
              (fun _ s => Forall (within_ranges param_ranges) (population s))
              s0 Hs0 Hw0) with (k := k) as (s & Hrun & _ & Hw).
  - intros j s1 s2 Hs1 Hw1 Hstep.
    destruct (generation_ok fitnessFun output_file num_params num_solutions
                num_parents param_ranges num_cpu uninit
                some_param parents_bounds ranges_len some_cpu s1 Hs1)
      as (offspring & fitness1 & g & batches & s2' & Hb & Hstep2 & Hp1 & _
          & _ & Hsize & Hp' & _).
    rewrite Hstep in Hstep2. inversion Hstep2; subst s2'.
    pose proof (breed_within s1 _ _ _ _ Hs1 Hw1 Hb) as W1.
    rewrite Hp'. apply Forall_forall. intros r Hr.
    rewrite Forall_forall in W1. apply W1.
    eapply Permutation_in; [|exact Hr].
    apply take_permutation.
    eapply Permutation_trans; [apply Np.argsort_perm|].
    unfold Np.size in Hsize. rewrite Hsize.
    destruct Hp1 as [Lp1 _]. unfold matrix, row in *. rewrite Lp1.
    apply Permutation_refl.
  - exists s. split; [exact Hrun|].
    intros r c lo hi Hr. rewrite Forall_forall in Hw. exact (Hw r Hr c lo hi).
Qed.

End RangeFacts.

(* ===================================================================== *)
(** ** solver: no workers, and whole-number fitness *)
(* ===================================================================== *)

(** X20.  With no worker the scheduler cannot start a pool:
    [mp.Pool(0)] raises [ValueError] as soon as one row is required.  When
    no row is required the loop is not entered and the fitness comes back
    as it was. *)
Theorem solver_without_workers (fitnessFun : row -> Q)
        (fitness : Np.ndarray) (population : matrix) (no_data : bool)
        (num_solutions num_parents : nat) :
  solver fitnessFun fitness population no_data num_solutions num_parents 0
  = match required_rows no_data num_solutions num_parents with
    | [] => Ok (fitness, [])
    | _ :: _ => Raise ValueError
    end.
Proof.
  unfold solver, required_rows.
  set (req := if no_data then num_solutions else num_solutions - num_parents).
  assert (Hrows : match (if no_data then seq 0 num_solutions
                         else seq num_parents (num_solutions - num_parents))
                  with [] => req = 0 | _ :: _ => 1 <= req end).
  { unfold req. destruct no_data.
    - destruct num_solutions; cbn; lia.
    - destruct (num_solutions - num_parents); cbn; lia. }
  destruct (if no_data then seq 0 num_solutions
            else seq num_parents (num_solutions - num_parents)).
  - rewrite Hrows. simp solver_loop. cbn. reflexivity.
  - simp solver_loop.
    destruct (le_lt_dec req 0) as [Hle|Hlt]; [lia|]. cbn.
    destruct (Nat.eq_dec (Nat.min (req - 0) 0) 0) as [He|Hne]; [reflexivity|].
    exfalso. apply Hne. apply Nat.min_0_r.
Qed.

Lemma Qtrunc_whole (x : Q) (z : Z) :
  (x == inject_Z z)%Q -> Np.Qtrunc x = z.
Proof.
  unfold Qeq, inject_Z, Np.Qtrunc. cbn [Qnum Qden]. intros H.
  rewrite Z.mul_1_r in H. rewrite H. apply Z.quot_mul. discriminate.
Qed.

(** X21.  The [int64] vector of a fresh run loses nothing of a fitness
    function whose values are whole numbers of the [int64] range: what is
    stored for every evaluated row is then the fitness of that row. *)
Theorem whole_fitness_survives_the_cast (fitnessFun : row -> Q)
        (fitness : list Z) (population : matrix) (no_data : bool)
        (num_solutions num_parents num_cpu : nat) :
  1 <= num_cpu -> num_parents <= num_solutions ->
  length population = num_solutions ->
  length fitness = num_solutions ->
  (forall r, In r population ->
             exists z : Z, (fitnessFun r == inject_Z z)%Q /\
                           (int64_min <= z <= int64_max)%Z) ->
  exists fitness' batches,
    solver fitnessFun (Np.IntArr fitness) population no_data
           num_solutions num_parents num_cpu = Ok (fitness', batches) /\
    forall i, In i (concat batches) ->
      (nth i (Np.values fitness') 0 == fitnessFun (nth i population []))%Q.
Proof.
  intros Hcpu Hp Lp Lf Hwhole.
  assert (Hsize : Np.size (Np.IntArr fitness) = num_solutions).
  { unfold Np.size. cbn. rewrite length_map. exact Lf. }
  destruct (solver_stores_cast_fitness fitnessFun (Np.IntArr fitness)
              population no_data num_solutions num_parents num_cpu
              Hcpu Hp Lp Hsize)
    as (fitness' & batches & Hsol & Hst).
  destruct (solver_closed_form fitnessFun (Np.IntArr fitness) population
              no_data num_solutions num_parents num_cpu Hcpu Hp Lp Hsize)
    as (fitness2 & batches2 & Hsol2 & Hperm & _).
  rewrite Hsol in Hsol2. inversion Hsol2; subst fitness2 batches2.
  exists fitness', batches. split; [exact Hsol|].
  intros i Hi. rewrite (Hst i Hi). cbn [stored_as].
  destruct (Hwhole (nth i population [])) as (z & Hz & _).
  { apply nth_In. apply (Permutation_in _ Hperm) in Hi.
    unfold required_rows in Hi.
    destruct no_data; apply in_seq in Hi; lia. }
  rewrite (Qtrunc_whole _ _ Hz). symmetry. exact Hz.
Qed.

(* ===================================================================== *)
(** ** geneticAlgoTest: the test fitness function *)
(* ===================================================================== *)

(** [a - b] on two 1-D arrays, with numpy's broadcasting: equal lengths,
    or one side a single cell; anything else is a shape mismatch. *)
Definition subtract (a b : row) : result row :=
  if length a =? length b then
    Ok (map (fun p => (fst p - snd p)%Q) (combine a b))
  else
    match a, b with
    | [x], _ => Ok (map (fun y => (x - y)%Q) b)
    | _, [y] => Ok (map (fun x => (x - y)%Q) a)
    | _, _ => Raise ValueError
    end.

(** Python's [sum]: from 0, left to right. *)
Definition pysum (l : list Q) : Q := fold_left Qplus l 0%Q.

Definition testFitnessFunc (x : row) : result Q :=
  d <- subtract x (repeat 5000%Q 8) ;;
  Ok (pysum (map (fun v => (v ^ 2)%Q) d)).





(** X23.  The target point is written out with eight entries, so the
    function fits eight parameters only: a row of any other length makes
    the subtraction raise [ValueError], except a single gene, which numpy
    broadcasts against all eight targets. *)
Theorem testFitnessFunc_other_lengths (x : row) :
  length x <> 8 ->
  match x with
  | [g] => exists v, testFitnessFunc x = Ok v /\
                     (v == 8 * (g - 5000) ^ 2)%Q
  | _ => testFitnessFunc x = Raise ValueError
  end.
Proof.
  intros L. destruct x as [|g x].
  - reflexivity.
  - destruct x as [|g2 x].
    + eexists. split; [reflexivity|]. unfold pysum.
      cbn [map fold_left repeat]. ring.
    + unfold testFitnessFunc, subtract. rewrite repeat_length.
      destruct (length (g :: g2 :: x) =? 8) eqn:E;
        [apply Nat.eqb_eq in E; contradiction|].
      reflexivity.
Qed.

(* ===================================================================== *)
(** ** The further properties at concrete inputs *)
(* ===================================================================== *)

Definition scenario_parents : matrix :=
  [[1; 2; 3; 4; 5]; [6; 7; 8; 9; 10]]%Q.

Lemma scenario_parents_shaped : shape 2 5 scenario_parents.
Proof. split; [reflexivity | repeat constructor]. Defined.

Definition scenario_checkpoint : checkpoint :=
  {| ck_population := [[1; 1]; [9; 9]; [0; 0]; [10; 10]]%Q;
     ck_fitness := [32; 32; 50; 50]%Q;
     ck_recorded_generations := 1;
     ck_record := [[1; 1; 1; 32]]%Q |}.

Lemma scenario_ranges_ordered :
  Forall (fun p => (fst p <= snd p)%Q) scenario_ranges.
Proof. repeat constructor; cbn; unfold Qle; cbn; lia. Defined.

(** On genes between 0 and 10 the scenario's fitness is at most 50; the
    witnesses of the statements that need [int64] values use the fitness
    capped there. *)
Definition scenario_fitness_capped (r : row) : Q :=
  if Qle_bool (scenario_fitness r) 50 then scenario_fitness r else 50%Q.

Lemma scenario_fitness_fits (r : row) :
  fits_int64 (scenario_fitness_capped r).
Proof.
  unfold fits_int64, scenario_fitness_capped.
  assert (H0 : (0 <= scenario_fitness r)%Q).
  { unfold scenario_fitness. induction r as [|x r IH]; cbn [map fold_right].
    - apply Qle_refl.
    - cbn beta in *.
      set (t := fold_right Qplus 0%Q _) in *.
      set (y := (x - 5)%Q) in *.
      assert (Hsq : (0 <= y * y)%Q) by nra.
      lra. }
  set (x := if Qle_bool (scenario_fitness r) 50
            then scenario_fitness r else 50%Q).
  assert (Hq : (0 <= x <= 50)%Q).
  { unfold x. destruct (Qle_bool (scenario_fitness r) 50) eqn:E.
    - apply Qle_bool_iff in E. split; assumption.
    - split; [discriminate | apply Qle_refl]. }
  destruct (Qtrunc_bounds x) as [Hpos _].
  destruct (Hpos (proj1 Hq)) as [Hlo Hhi].
  set (z := Np.Qtrunc x) in *.
  assert (Hz1 : (inject_Z z <= 50)%Q) by lra.
  assert (Hz2 : (-1 < inject_Z z)%Q) by lra.
  unfold Qle, Qlt, inject_Z in Hz1, Hz2. cbn in Hz1, Hz2.
  unfold int64_min, int64_max. lia.
Defined.

Lemma scenario_state_within :
  Forall (within_ranges scenario_ranges) (population scenario_state).
Proof.
  repeat constructor; intros [|[|c]] lo hi Hc; cbn in Hc;
    try discriminate Hc;
    try (destruct c; discriminate Hc);
    inversion Hc; subst lo hi; eexists; (split; [reflexivity|]);
    split; unfold Qle; cbn; lia.
Defined.

Lemma crossover_genes_below_512_witness :
  exists offspring,
    (forall uninit, crossover uninit scenario_parents 5 2 5 = Ok offspring) /\
    length offspring = 5 - 2 /\
    forall k, k < 5 - 2 ->
      Np.getslice (nth k offspring []) 0 (5 / 2)
      = Np.getslice (nth (k mod 2) scenario_parents []) 0 (5 / 2)
      /\
      Np.getslice (nth k offspring []) (5 / 2) 5
      = Np.getslice (nth ((k + 1) mod 2) scenario_parents []) (5 / 2) 5.
Proof.
  apply (crossover_genes_below_512 scenario_parents 5 2 5);
    [exact scenario_parents_shaped | lia | lia].
Defined.

Lemma crossover_fills_every_cell_witness :
  exists offspring,
    (forall uninit, crossover uninit scenario_parents 5 2 5 = Ok offspring) /\
    shape (5 - 2) 5 offspring.
Proof.
  apply (crossover_fills_every_cell scenario_parents 5 2 5);
    [exact scenario_parents_shaped | lia].
Defined.

Lemma crossover_single_parent_clones_witness :
  crossover 0%Q [[1; 2; 3]]%Q 3 1 3
  = Ok (repeat (nth 0 [[1; 2; 3]]%Q []) (3 - 1)).
Proof.
  apply (crossover_single_parent_clones 0%Q [[1; 2; 3]]%Q 3 3);
    [split; [reflexivity | repeat constructor] | lia].
Defined.

Lemma crossover_repeats_after_num_parents_witness :
  exists offspring,
    crossover 0%Q scenario_parents 5 2 5 = Ok offspring /\
    nth (0 + 2) offspring [] = nth 0 offspring [].
Proof.
  apply (crossover_repeats_after_num_parents 0%Q scenario_parents 5 2 5 0);
    [exact scenario_parents_shaped | lia | lia].
Defined.

Lemma crossover_without_parents_raises_witness :
  crossover 0%Q [] 3 0 2 = Raise ZeroDivisionError.
Proof.
  apply (crossover_without_parents_raises 0%Q [] 3 2). lia.
Defined.

Lemma crossover_point_zero_copies_second_parent_witness :
  exists offspring,
    crossover 0%Q [[1]; [2]]%Q 3 2 1 = Ok offspring /\
    nth 0 offspring [] = nth ((0 + 1) mod 2) [[1]; [2]]%Q [].
Proof.
  apply (crossover_point_zero_copies_second_parent 0%Q [[1]; [2]]%Q 3 2 1 0);
    [split; [reflexivity | repeat constructor] | lia | reflexivity | lia].
Defined.

Lemma mutation_without_params_raises_witness :
  mutation (RS := counter_random) [[1; 1]]%Q 0 scenario_ranges 0
  = Raise ValueError.
Proof.
  apply (mutation_without_params_raises (RS := counter_random)
           [[1; 1]]%Q scenario_ranges 0).
  discriminate.
Defined.

Lemma mutation_without_ranges_raises_witness :
  mutation (RS := counter_random) [[1; 1]]%Q 2 [] 0 = Raise IndexError.
Proof.
  apply (mutation_without_ranges_raises (RS := counter_random)
           [[1; 1]]%Q 2 0); [discriminate | lia].
Defined.

Lemma solver_batches_are_blocks_from_the_end_witness :
  exists fitness' batches,
    solver scenario_fitness (Np.FloatArr [32; 32; 0; 0]%Q)
           [[1; 1]; [9; 9]; [1; 9]; [9; 0]]%Q false 4 2 3
    = Ok (fitness', batches) /\
    concat (rev batches) = required_rows false 4 2 /\
    Forall (fun b => 1 <= length b <= 3) batches /\
    length batches = (length (required_rows false 4 2) + 3 - 1) / 3.
Proof.
  apply (solver_batches_are_blocks_from_the_end scenario_fitness
           (Np.FloatArr [32; 32; 0; 0]%Q)
           [[1; 1]; [9; 9]; [1; 9]; [9; 0]]%Q false 4 2 3);
    [lia | lia | reflexivity | reflexivity].
Defined.

Lemma fresh_run_fitness_is_cut_toward_zero_witness :
  exists fitness' batches,
    solver (fun r : row => (nth 0 r 0 / 2)%Q) (Np.IntArr [0; 0; 0]%Z)
           [[1]; [3]; [5]]%Q true 3 1 2
    = Ok (fitness', batches) /\
    forall i, In i (concat batches) ->
      exists z : Z,
        nth i (Np.values fitness') 0%Q = inject_Z z /\
        (int64_min <= z <= int64_max)%Z /\
        let f := (nth 0 (nth i [[1]; [3]; [5]]%Q []) 0 / 2)%Q in
        ((0 <= f -> inject_Z z <= f /\ f < inject_Z z + 1) /\
         (f <= 0 -> inject_Z z - 1 < f /\ f <= inject_Z z))%Q.
Proof.
  apply (fresh_run_fitness_is_cut_toward_zero
           (fun r : row => (nth 0 r 0 / 2)%Q) [0; 0; 0]%Z
           [[1]; [3]; [5]]%Q true 3 1 2);
    [lia | lia | reflexivity | reflexivity |].
  intros r [<-|[<-|[<-|[]]]]; vm_compute; split; discriminate.
Defined.

Lemma resumed_run_fitness_is_exact_witness :
  exists fitness' batches,
    solver scenario_fitness (Np.FloatArr [32; 32; 0; 0]%Q)
           [[1; 1]; [9; 9]; [1; 9]; [9; 0]]%Q false 4 2 3
    = Ok (fitness', batches) /\
    forall i, In i (concat batches) ->
      nth i (Np.values fitness') 0%Q
      = scenario_fitness (nth i [[1; 1]; [9; 9]; [1; 9]; [9; 0]]%Q []).
Proof.
  apply (resumed_run_fitness_is_exact scenario_fitness [32; 32; 0; 0]%Q
           [[1; 1]; [9; 9]; [1; 9]; [9; 0]]%Q false 4 2 3);
    [lia | lia | reflexivity | reflexivity].
Defined.

Lemma fresh_population_within_ranges_witness :
  exists s,
    startup (RS := counter_random) 2 4 scenario_ranges 0%Q
            (Raise FileNotFoundError) 0
    = Ok (Finished s) /\
    shape 4 2 (population s) /\
    (forall r c lo hi,
        In r (population s) -> nth_error scenario_ranges c = Some (lo, hi) ->
        exists x, nth_error r c = Some x /\ (lo <= x <= hi)%Q) /\
    fitness s = Np.IntArr (repeat 0%Z 4) /\
    no_data s = true /\
    wb s = format_workbook 2 /\
    forall path, ~ In (Save path) (wb s).
Proof.
  apply (fresh_population_within_ranges (RS := counter_random)
           2 4 scenario_ranges 0%Q FileNotFoundError 0);
    [reflexivity | exact scenario_ranges_ordered].
Defined.

Lemma fresh_run_records_every_generation_witness :
  exists s,
    geneticAlgoSolve (RS := counter_random) (AS := stable_argsort)
                     scenario_fitness_capped "geneticAlgoOutput.xlsx" 3 2 4 2
                     scenario_ranges 2 0%Q (Raise FileNotFoundError) 0
    = Ok (Finished s) /\
    well_shaped 2 4 s /\
    length (recorded_entries s) = 3 /\
    recorded_count s = 3 /\
    (1 <= 3 ->
     no_data s = false /\ length (record s) = 3 /\
     recorded_generations s = 3).
Proof.
  apply (fresh_run_records_every_generation (RS := counter_random)
           (AS := stable_argsort) scenario_fitness_capped "geneticAlgoOutput.xlsx"
           2 4 2 scenario_ranges 2 0%Q);
    [lia | lia | reflexivity | lia | exact scenario_fitness_fits].
Defined.

Lemma run_saves_once_per_generation_witness :
  exists s,
    generations (AS := stable_argsort) scenario_fitness
                "geneticAlgoOutput.xlsx" 2 4 2 scenario_ranges 2 0%Q
                3 scenario_state = Ok s /\
    count_saves (wb s)
    = count_saves (wb scenario_state) + 3
      + (if no_data scenario_state then (if 3 =? 0 then 0 else 1) else 0).
Proof.
  apply (run_saves_once_per_generation (AS := stable_argsort)
           scenario_fitness "geneticAlgoOutput.xlsx" 2 4 2 scenario_ranges
           2 0%Q);
    [lia | lia | reflexivity | lia | exact scenario_state_shaped].
Defined.

Lemma run_evaluates_only_new_rows_witness :
  exists s,
    generations (AS := stable_argsort) scenario_fitness
                "geneticAlgoOutput.xlsx" 2 4 2 scenario_ranges 2 0%Q
                3 scenario_state = Ok s /\
    length (concat (evals s))
    = length (concat (evals scenario_state)) + 3 * (4 - 2)
      + (if no_data scenario_state then (if 3 =? 0 then 0 else 2) else 0).
Proof.
  apply (run_evaluates_only_new_rows (AS := stable_argsort)
           scenario_fitness "geneticAlgoOutput.xlsx" 2 4 2 scenario_ranges
           2 0%Q);
    [lia | lia | reflexivity | lia | exact scenario_state_shaped].
Defined.

Lemma fresh_run_records_whole_numbers_witness :
  exists s l,
    geneticAlgoSolve (RS := counter_random) (AS := stable_argsort)
                     scenario_fitness_capped "geneticAlgoOutput.xlsx" 3 2 4 2
                     scenario_ranges 2 0%Q (Raise FileNotFoundError) 0
    = Ok (Finished s) /\
    fitness s = Np.IntArr l /\
    Forall (fun entry => exists z : Z, last entry 0%Q = inject_Z z)
           (recorded_entries s).
Proof.
  apply (fresh_run_records_whole_numbers (RS := counter_random)
           (AS := stable_argsort) scenario_fitness_capped "geneticAlgoOutput.xlsx"
           2 4 2 scenario_ranges 2 0%Q);
    [lia | lia | reflexivity | lia | exact scenario_fitness_fits].
Defined.


Lemma resumed_run_skips_the_length_check_witness :
  geneticAlgoSolve (RS := counter_random) (AS := stable_argsort)
                   scenario_fitness "geneticAlgoOutput.xlsx" 10 2 4 2
                   [] 4 0%Q (Ok scenario_checkpoint) 0
  = Raise IndexError.
Proof.
  apply (resumed_run_skips_the_length_check (RS := counter_random)
           (AS := stable_argsort) scenario_fitness "geneticAlgoOutput.xlsx"
           10 2 4 2 4 0%Q scenario_checkpoint 0);
    [lia | lia | lia | split; [reflexivity | repeat constructor]].
Defined.

Lemma workbook_holds_final_state_witness :
  exists s,
    generations (AS := stable_argsort) scenario_fitness
                "geneticAlgoOutput.xlsx" 2 4 2 scenario_ranges 2 0%Q
                (S 2) scenario_state = Ok s /\
    last_written "Population" 1 1 (wb s) = Some (CTable (population s)) /\
    last_written "Fitness" 1 1 (wb s) = Some (CArray (fitness s)) /\
    last_written "Record" 3 5 (wb s)
    = Some (CNum (inject_Z (Z.of_nat (recorded_generations s)))) /\
    last_written "Record" 6 2 (wb s) = Some (CTable (record s)) /\
    last (wb s) BookNew = Save None.
Proof.
  apply (workbook_holds_final_state (AS := stable_argsort)
           scenario_fitness "geneticAlgoOutput.xlsx" 2 4 2 scenario_ranges
           2 0%Q);
    [lia | lia | reflexivity | lia | exact scenario_state_shaped].
Defined.

Lemma genes_stay_within_ranges_witness :
  exists s,
    generations (AS := stable_argsort) scenario_fitness
                "geneticAlgoOutput.xlsx" 2 4 2 scenario_ranges 2 0%Q
                3 scenario_state = Ok s /\
    forall r c lo hi,
      In r (population s) -> nth_error scenario_ranges c = Some (lo, hi) ->
      exists x, nth_error r c = Some x /\ (lo <= x <= hi)%Q.
Proof.
  apply (genes_stay_within_ranges (AS := stable_argsort)
           scenario_fitness "geneticAlgoOutput.xlsx" 2 4 2 scenario_ranges
           2 0%Q);
    [lia | lia | reflexivity | lia | exact scenario_ranges_ordered
     | exact scenario_state_shaped | exact scenario_state_within].
Defined.

Lemma whole_fitness_survives_the_cast_witness :
  exists fitness' batches,
    solver (fun r : row => inject_Z (Np.Qtrunc (scenario_fitness r)))
           (Np.IntArr [0; 0; 0; 0]%Z)
           [[1; 1]; [9; 9]; [1; 9]; [9; 0]]%Q true 4 2 3
    = Ok (fitness', batches) /\
    forall i, In i (concat batches) ->
      (nth i (Np.values fitness') 0
       == inject_Z (Np.Qtrunc (scenario_fitness
                                 (nth i [[1; 1]; [9; 9]; [1; 9]; [9; 0]]%Q []))))%Q.
Proof.
  apply (whole_fitness_survives_the_cast
           (fun r : row => inject_Z (Np.Qtrunc (scenario_fitness r)))
           [0; 0; 0; 0]%Z [[1; 1]; [9; 9]; [1; 9]; [9; 0]]%Q true 4 2 3);
    [lia | lia | reflexivity | reflexivity |].
  intros r Hr. exists (Np.Qtrunc (scenario_fitness r)).
  split; [reflexivity|].
  destruct Hr as [<-|[<-|[<-|[<-|[]]]]]; vm_compute; split; discriminate.
Defined.


Lemma testFitnessFunc_other_lengths_witness :
  testFitnessFunc [1; 2]%Q = Raise ValueError.
Proof.
  apply (testFitnessFunc_other_lengths [1; 2]%Q). cbn. lia.
Defined.
